(** * Job orchestration and state persistence of the shorts bot

    A shallow embedding of the persistence layer ([db.js]: the three SQLite
    tables and the functions over them), of the authorisation lookup
    ([oauth/google.js]), of the job runner ([workflow/runner.js]) and of the
    notifier adapter wired in [server.js], followed by the properties of the
    job ledger, the credential store, the pending-authorisation ledger and
    the runner.

    Modelling conventions.
    - A table is the list of its rows in insertion order.  The [PRIMARY KEY]
      of a table is not built into the type: [INSERT] checks it, exactly as
      SQLite does, and uniqueness of keys is a proved invariant.
    - A nullable [TEXT] or [INTEGER] column is an [option]; [None] is SQL
      [NULL] (JavaScript [null] / [undefined] on the way in).
    - [Date.now()], [crypto.randomUUID()], the file system and the external
      tools behind the pipeline stages are oracles gathered in an
      environment record; the observer callback is an oracle that also sees
      the statuses it was called with before.
    - A JavaScript function that may throw returns an [Outcome]; code that
      also touches the database or calls the outside world lives in the
      monad [M].
    - One job is followed in isolation: nothing else writes the database
      while the job awaits a collaborator. *)

From Stdlib Require Import String Ascii List ZArith Bool Lia DecimalString.
Import ListNotations.
Local Open Scope string_scope.
Local Open Scope Z_scope.

(** ** JavaScript values that matter here *)

(** Values that reach a [catch (err)] clause. [ErrorObj name message] is an
    [Error] instance (or a subclass such as [SqliteError]). *)
Inductive Thrown : Type :=
| ErrorObj (name message : string)
| ThrownString (s : string)
| ThrownNull
| ThrownUndefined.

(** [String(err?.message || err)], which is also what the template literal
    [`${err?.message || err}`] renders.  A non-empty [message] wins;
    otherwise the thrown value itself is converted, and
    [Error.prototype.toString] of an error with an empty message is its
    name. *)
Definition errText (err : Thrown) : string :=
  match err with
  | ErrorObj name message => if (message =? "")%string then name else message
  | ThrownString s => s
  | ThrownNull => "null"
  | ThrownUndefined => "undefined"
  end.

Inductive Outcome (A : Type) : Type :=
| Returned (a : A)
| Threw (e : Thrown).
Arguments Returned {A} a.
Arguments Threw {A} e.

(** [x || null] on an optional string: the empty string is falsy. *)
Definition orNull (x : option string) : option string :=
  match x with
  | Some s => if (s =? "")%string then None else Some s
  | None => None
  end.

(** [x || null] on an optional number: zero is falsy. *)
Definition orNullZ (x : option Z) : option Z :=
  match x with
  | Some n => if n =? 0 then None else Some n
  | None => None
  end.

(** SQL [COALESCE(a, b)]. *)
Definition COALESCE {A : Type} (a b : option A) : option A :=
  match a with
  | Some _ => a
  | None => b
  end.

(** ** The database ([db.js]) *)

Record TokenRow : Type := {
  tok_telegram_user_id : string;
  access_token : option string;
  refresh_token : option string;
  scope : option string;
  token_type : option string;
  expiry_date : option Z
}.

Record StateRow : Type := {
  state : string;
  st_telegram_user_id : string;
  st_created_at : Z
}.

Record JobRow : Type := {
  job_id : string;
  job_telegram_user_id : string;
  source_url : string;
  status : string;
  created_at : Z;
  updated_at : Z;
  video_id : option string;
  error : option string
}.

Record Db : Type := {
  oauth_tokens : list TokenRow;
  oauth_states : list StateRow;
  jobs : list JobRow
}.

Definition emptyDb : Db :=
  {| oauth_tokens := []; oauth_states := []; jobs := [] |}.

Definition set_tokens (t : list TokenRow) (db : Db) : Db :=
  {| oauth_tokens := t; oauth_states := oauth_states db; jobs := jobs db |}.
Definition set_states (s : list StateRow) (db : Db) : Db :=
  {| oauth_tokens := oauth_tokens db; oauth_states := s; jobs := jobs db |}.
Definition set_jobs (j : list JobRow) (db : Db) : Db :=
  {| oauth_tokens := oauth_tokens db; oauth_states := oauth_states db; jobs := j |}.

(** The token set handed over by the authorisation server ([tokens] in
    [handleOAuthCallback]); every field may be missing. *)
Record Credentials : Type := {
  c_access_token : option string;
  c_refresh_token : option string;
  c_scope : option string;
  c_token_type : option string;
  c_expiry_date : option Z
}.

(** The row bound by [stmt.run({...})] in [upsertToken]. *)
Definition tokenParams (telegramUserId : string) (token : Credentials) : TokenRow :=
  {| tok_telegram_user_id := telegramUserId;
     access_token := c_access_token token;
     refresh_token := orNull (c_refresh_token token);
     scope := orNull (c_scope token);
     token_type := Some match orNull (c_token_type token) with
                        | Some t => t
                        | None => "Bearer"
                        end;
     expiry_date := orNullZ (c_expiry_date token) |}.

(** [ON CONFLICT(telegram_user_id) DO UPDATE SET ...]: [excluded] is the row
    that could not be inserted, [old] the row already stored. *)
Definition tokenConflictUpdate (excluded old : TokenRow) : TokenRow :=
  {| tok_telegram_user_id := tok_telegram_user_id old;
     access_token := access_token excluded;
     refresh_token := COALESCE (refresh_token excluded) (refresh_token old);
     scope := scope excluded;
     token_type := token_type excluded;
     expiry_date := expiry_date excluded |}.

Definition hasToken (telegramUserId : string) (r : TokenRow) : bool :=
  (tok_telegram_user_id r =? telegramUserId)%string.

Definition upsertToken (telegramUserId : string) (token : Credentials) (db : Db) : Db :=
  let excluded := tokenParams telegramUserId token in
  if existsb (hasToken telegramUserId) (oauth_tokens db)
  then set_tokens
         (map (fun r => if hasToken telegramUserId r
                        then tokenConflictUpdate excluded r else r)
              (oauth_tokens db)) db
  else set_tokens (oauth_tokens db ++ [excluded]) db.

Definition getToken (telegramUserId : string) (db : Db) : option TokenRow :=
  find (hasToken telegramUserId) (oauth_tokens db).

Definition deleteToken (telegramUserId : string) (db : Db) : Db :=
  set_tokens (filter (fun r => negb (hasToken telegramUserId r)) (oauth_tokens db)) db.

(** The error better-sqlite3 raises when an [INSERT] hits a primary key. *)
Definition uniqueViolation (column : string) : Thrown :=
  ErrorObj "SqliteError" ("UNIQUE constraint failed: " ++ column).

Definition hasState (s : string) (r : StateRow) : bool := (state r =? s)%string.

Definition createState (telegramUserId s : string) (now : Z) (db : Db)
  : Outcome unit * Db :=
  if existsb (hasState s) (oauth_states db)
  then (Threw (uniqueViolation "oauth_states.state"), db)
  else (Returned tt,
        set_states (oauth_states db ++
                    [{| state := s; st_telegram_user_id := telegramUserId;
                        st_created_at := now |}]) db).

Definition consumeState (s : string) (db : Db) : option StateRow * Db :=
  let row := find (hasState s) (oauth_states db) in
  match row with
  | Some _ => (row, set_states (filter (fun r => negb (hasState s r)) (oauth_states db)) db)
  | None => (None, db)
  end.

(** The [job] object passed to [createJob]. *)
Record NewJob : Type := {
  nj_id : string;
  nj_telegram_user_id : string;
  nj_source_url : string;
  nj_status : string
}.

Definition hasJob (i : string) (r : JobRow) : bool := (job_id r =? i)%string.

Definition createJob (job : NewJob) (now : Z) (db : Db) : Outcome unit * Db :=
  if existsb (hasJob (nj_id job)) (jobs db)
  then (Threw (uniqueViolation "jobs.id"), db)
  else (Returned tt,
        set_jobs (jobs db ++
                  [{| job_id := nj_id job;
                      job_telegram_user_id := nj_telegram_user_id job;
                      source_url := nj_source_url job;
                      status := nj_status job;
                      created_at := now;
                      updated_at := now;
                      video_id := None;
                      error := None |}]) db).

(** The optional third argument of [updateJobStatus]; a missing property is
    [None], as the destructuring defaults make it. *)
Record Extra : Type := {
  x_video_id : option string;
  x_error : option string
}.

Definition noExtra : Extra := {| x_video_id := None; x_error := None |}.

(** The [SET] clause of the [UPDATE] applied to one row. *)
Definition jobUpdate (st : string) (now : Z) (extra : Extra) (r : JobRow) : JobRow :=
  {| job_id := job_id r;
     job_telegram_user_id := job_telegram_user_id r;
     source_url := source_url r;
     status := st;
     created_at := created_at r;
     updated_at := now;
     video_id := COALESCE (x_video_id extra) (video_id r);
     error := x_error extra |}.

Definition updateJobStatus (i st : string) (extra : Extra) (now : Z) (db : Db) : Db :=
  set_jobs (map (fun r => if hasJob i r then jobUpdate st now extra r else r) (jobs db)) db.

Definition getJob (i : string) (db : Db) : option JobRow :=
  find (hasJob i) (jobs db).

(** ** The authorised client ([oauth/google.js]) *)

Record OAuth2Client : Type := {
  client_id : string;
  client_secret : string;
  redirect_uri : string;
  credentials : Credentials
}.

(** [utils/urls.js] *)
Definition buildOAuthRedirectUrl (base : string) : string := base ++ "/oauth2/callback".

(** ** The outside world *)

Inductive Stage : Type := Download | Trim | ExtractAudio | Transcribe | Upload.

(** The argument object of [uploadVideoWithCaptions]. *)
Record UploadRequest : Type := {
  oauth2Client : OAuth2Client;
  videoPath : string;
  srtPath : string;
  title : string;
  description : string;
  tags : list string
}.

(** Configuration constants, sources of time and randomness, and the
    collaborators of the runner.  A collaborator is an oracle from its
    arguments to the path or identifier it resolves with, or to the value it
    rejects with. [dateNow n] is what the [n]-th call of [Date.now()]
    returns. *)
Record Env : Type := {
  JOBS_DIR : string;
  PORT : Z;
  GOOGLE_CLIENT_ID : string;
  GOOGLE_CLIENT_SECRET : string;
  dateNow : nat -> Z;
  randomUUID : string;
  mkdirSync : string -> Outcome unit;
  downloadVideo : string -> string -> Outcome string;
  trimAndFormat : string -> string -> Outcome string;
  extractAudio : string -> string -> Outcome string;
  transcribeToSrt : string -> Outcome string;
  uploadVideoWithCaptions : UploadRequest -> Outcome string
}.

(** The [notify] callback: given the statuses it was called with so far and
    the new status, it resolves or rejects. *)
Definition Observer : Type := list string -> string -> Outcome unit.

(** What happened, in order: the row of a job as stored right after each
    write to the ledger, each call of the observer with its result, each
    call of a collaborator with its result. *)
Inductive Event : Type :=
| EvLedger (i : string) (row : option JobRow)
| EvNotify (msg : string) (r : Outcome unit)
| EvCall (s : Stage) (r : Outcome string).

Record World : Type := {
  db : Db;
  ticks : nat;
  trace : list Event
}.

Definition initWorld (d : Db) : World := {| db := d; ticks := 0; trace := [] |}.

Definition notified (tr : list Event) : list string :=
  flat_map (fun ev => match ev with EvNotify msg _ => [msg] | _ => [] end) tr.

(** ** A monad for code that may throw and touches the world *)

Definition M (A : Type) : Type := World -> Outcome A * World.

Definition ret {A : Type} (a : A) : M A := fun w => (Returned a, w).

Definition bind {A B : Type} (m : M A) (k : A -> M B) : M B :=
  fun w => match m w with
           | (Returned a, w') => k a w'
           | (Threw e, w') => (Threw e, w')
           end.

Definition throw {A : Type} (e : Thrown) : M A := fun w => (Threw e, w).

(** [try { body } catch (err) { handler }] *)
Definition tryCatch {A : Type} (body : M A) (handler : Thrown -> M A) : M A :=
  fun w => match body w with
           | (Returned a, w') => (Returned a, w')
           | (Threw e, w') => handler e w'
           end.

Declare Scope js_scope.
Delimit Scope js_scope with js.
Notation "x <- m ;; k" := (bind m (fun x => k))
  (at level 100, m at next level, right associativity) : js_scope.
Notation "m ;; k" := (bind m (fun _ => k))
  (at level 100, right associativity) : js_scope.
Local Open Scope js_scope.

Definition logEvent (ev : Event) (w : World) : World :=
  {| db := db w; ticks := ticks w; trace := trace w ++ [ev] |}.

(** [wp m w Q]: running [m] from [w] ends in a result satisfying [Q]. *)
Definition wp {A : Type} (m : M A) (w : World) (Q : Outcome A * World -> Prop) : Prop :=
  Q (m w).

Section Runner.

Variable E : Env.

(** [Date.now()] *)
Definition Date_now : M Z :=
  fun w => (Returned (dateNow E (ticks w)),
            {| db := db w; ticks := S (ticks w); trace := trace w |}).

(** [fs.mkdirSync(dir, { recursive: true })] *)
Definition mkdirSyncM (dir : string) : M unit :=
  fun w => (mkdirSync E dir, w).

Definition createJobM (job : NewJob) : M unit :=
  now <- Date_now ;;
  fun w => match createJob job now (db w) with
           | (Returned u, d) =>
               (Returned u,
                logEvent (EvLedger (nj_id job) (getJob (nj_id job) d))
                         {| db := d; ticks := ticks w; trace := trace w |})
           | (Threw e, d) => (Threw e, {| db := d; ticks := ticks w; trace := trace w |})
           end.

Definition updateJobStatusM (i st : string) (extra : Extra) : M unit :=
  now <- Date_now ;;
  fun w => let d := updateJobStatus i st extra now (db w) in
           (Returned tt,
            logEvent (EvLedger i (getJob i d))
                     {| db := d; ticks := ticks w; trace := trace w |}).

(** [if (notify) await notify(status)] *)
Definition awaitNotify (notify : option Observer) (msg : string) : M unit :=
  match notify with
  | None => ret tt
  | Some f => fun w => let r := f (notified (trace w)) msg in
                       (r, logEvent (EvNotify msg r) w)
  end.

(** Awaiting a collaborator. *)
Definition await (s : Stage) (r : Outcome string) : M string :=
  fun w => (r, logEvent (EvCall s r) w).

Definition getAuthorizedClient (telegramUserId baseUrl : string) (d : Db)
  : option OAuth2Client :=
  let redirectUri := buildOAuthRedirectUrl baseUrl in
  match getToken telegramUserId d with
  | None => None
  | Some token =>
      Some {| client_id := GOOGLE_CLIENT_ID E;
              client_secret := GOOGLE_CLIENT_SECRET E;
              redirect_uri := redirectUri;
              credentials :=
                {| c_access_token := access_token token;
                   c_refresh_token := refresh_token token;
                   c_scope := scope token;
                   c_token_type := token_type token;
                   c_expiry_date := expiry_date token |} |}
  end.

Definition getAuthorizedClientM (telegramUserId baseUrl : string)
  : M (option OAuth2Client) :=
  fun w => (Returned (getAuthorizedClient telegramUserId baseUrl (db w)), w).

(** [path.join(dir, name)] for a directory written in normal form, without a
    trailing separator, and a name that is a single segment (a UUID);
    [path.join] would normalise any other directory. *)
Definition pathJoin (dir name : string) : string := dir ++ "/" ++ name.

Definition notLinked : Thrown :=
  ErrorObj "Error" "Google not linked. Use the dashboard to connect your YouTube.".

(** The inner [step] closure of [runCreateShorts]. *)
Definition step (jobId : string) (notify : option Observer)
           (st : string) (fn : M string) : M string :=
  updateJobStatusM jobId st noExtra ;;
  awaitNotify notify st ;;
  fn.

(** [telegramUserId] stands for [String(telegramUserId)], the only form in
    which the identity reaches the database. *)
Definition runCreateShorts (telegramUserId url baseUrl : string)
           (notify : option Observer) : M string :=
  let jobId := randomUUID E in
  let jobDir := pathJoin (JOBS_DIR E) jobId in
  mkdirSyncM jobDir ;;
  createJobM {| nj_id := jobId; nj_telegram_user_id := telegramUserId;
                nj_source_url := url; nj_status := "queued" |} ;;
  tryCatch
    (sourcePath <- step jobId notify "downloading"
                     (await Download (downloadVideo E url jobDir)) ;;
     shortsPath <- step jobId notify "processing"
                     (await Trim (trimAndFormat E sourcePath jobDir)) ;;
     audioPath <- step jobId notify "audio_extract"
                    (await ExtractAudio (extractAudio E shortsPath jobDir)) ;;
     srt <- step jobId notify "transcribing"
              (await Transcribe (transcribeToSrt E audioPath)) ;;
     client <- getAuthorizedClientM telegramUserId baseUrl ;;
     match client with
     | None => throw notLinked
     | Some c =>
         videoId <- step jobId notify "uploading"
                      (await Upload
                         (uploadVideoWithCaptions E
                            {| oauth2Client := c;
                               videoPath := shortsPath;
                               srtPath := srt;
                               title := "Shorts clip";
                               description := "Generated via bot";
                               tags := ["shorts"; "bot"] |})) ;;
         updateJobStatusM jobId "completed"
           {| x_video_id := Some videoId; x_error := None |} ;;
         awaitNotify notify "completed"
     end)
    (fun err =>
       updateJobStatusM jobId "failed"
         {| x_video_id := None; x_error := Some (errText err) |} ;;
       awaitNotify notify ("failed: " ++ errText err)) ;;
  ret jobId.

(** ** The notifier adapter and the wiring in [server.js] *)

(** [async (status) => { try { await bot.telegram.sendMessage(...) } catch {} }] *)
Definition botNotify (sendMessage : list string -> string -> string -> Outcome unit)
           (telegramUserId : string) : Observer :=
  fun sent st =>
    match sendMessage sent telegramUserId ("Status: " ++ st) with
    | Returned _ => Returned tt
    | Threw _ => Returned tt
    end.

(** The handler given to [setupBotHandlers]. *)
Definition onCreateShorts (sendMessage : list string -> string -> string -> Outcome unit)
           (telegramUserId url : string) : M string :=
  let base := "http://localhost:" ++ NilZero.string_of_int (Z.to_int (PORT E)) in
  runCreateShorts telegramUserId url base
                  (Some (botNotify sendMessage telegramUserId)).

End Runner.

(** ** Observations on a run *)

(** The successive stored rows of job [i]. *)
Definition ledgerRows (i : string) (tr : list Event) : list JobRow :=
  flat_map (fun ev => match ev with
                      | EvLedger j (Some r) => if (j =? i)%string then [r] else []
                      | _ => []
                      end) tr.

Definition statusesWritten (i : string) (tr : list Event) : list string :=
  map status (ledgerRows i tr).

Definition stage_eqb (a b : Stage) : bool :=
  match a, b with
  | Download, Download | Trim, Trim | ExtractAudio, ExtractAudio
  | Transcribe, Transcribe | Upload, Upload => true
  | _, _ => false
  end.

(** How many times collaborator [s] was invoked. *)
Definition invocations (s : Stage) (tr : list Event) : nat :=
  length (filter (fun ev => match ev with EvCall s' _ => stage_eqb s s' | _ => false end) tr).

Definition allStages : list Stage := [Download; Trim; ExtractAudio; Transcribe; Upload].

(** The [failed: ...] notifications the observer received. *)
Definition failedNotifications (tr : list Event) : list string :=
  filter (String.prefix "failed: ") (notified tr).

(** The fixed linear order of the spec's state machine. *)
Definition stageOrder : list string :=
  ["queued"; "downloading"; "processing"; "audio_extract"; "transcribing";
   "uploading"; "completed"].

Definition strings_eqb (a b : list string) : bool :=
  if list_eq_dec string_dec a b then true else false.

(** [l] is a prefix of [stageOrder], or such a prefix that stops at a
    non-terminal state ([queued] .. [uploading]) followed by [failed]. *)
Definition validPath (l : list string) : bool :=
  existsb (fun n => strings_eqb l (firstn n stageOrder)) (seq 0 8)
  || existsb (fun n => strings_eqb l (firstn n stageOrder ++ ["failed"])) (seq 1 6).

Definition isSome {A : Type} (o : option A) : bool :=
  match o with Some _ => true | None => false end.

(** The correlation of the spec between the status and the two optional
    fields of a job. *)
Definition correlated (r : JobRow) : Prop :=
  (video_id r <> None <-> status r = "completed")
  /\ (error r <> None <-> status r = "failed")
  /\ (video_id r = None \/ error r = None).

(** An observer that resolves when it is called with [completed], whatever
    it was called with before; on any other message it may reject. *)
Definition resolvesCompleted (notify : option Observer) : Prop :=
  match notify with
  | None => True
  | Some f => forall sent, f sent "completed" = Returned tt
  end.

Definition noop : Observer := fun _ _ => Returned tt.

(** What a column holds after [supplied || fallback] was bound to it: the
    supplied value, or the fallback when the value is missing or falsy (the
    empty string, zero). *)
Definition storedAs {A : Type} (falsy : A) (fallback : option A)
           (supplied stored : option A) : Prop :=
  (forall v, supplied = Some v -> v <> falsy -> stored = Some v)
  /\ (supplied = None \/ supplied = Some falsy -> stored = fallback).

(** The records the credential store holds for one owner. *)
Definition recordsOf (telegramUserId : string) (d : Db) : list TokenRow :=
  filter (hasToken telegramUserId) (oauth_tokens d).

(** The primary key of [oauth_tokens] holds. *)
Definition oneRecordPerOwner (d : Db) : Prop :=
  forall u, (length (recordsOf u d) <= 1)%nat.

(** Operations of the pending-authorisation ledger, to speak of what
    happens to other tokens between two uses of one token. *)
Inductive StateOp : Type :=
| OpCreate (telegramUserId s : string) (now : Z)
| OpConsume (s : string).

Definition opToken (op : StateOp) : string :=
  match op with
  | OpCreate _ s _ => s
  | OpConsume s => s
  end.

Definition runStateOp (op : StateOp) (d : Db) : Db :=
  match op with
  | OpCreate u s now => snd (createState u s now d)
  | OpConsume s => snd (consumeState s d)
  end.

Definition runStateOps (ops : list StateOp) (d : Db) : Db :=
  fold_left (fun acc op => runStateOp op acc) ops d.

(** None of [ops] names the token [s]. *)
Definition otherTokens (s : string) (ops : list StateOp) : Prop :=
  Forall (fun op => opToken op <> s) ops.

(** Running one job from a database [d], with empty history. *)
Definition runJob (E : Env) (telegramUserId url baseUrl : string)
           (notify : option Observer) (d : Db) : Outcome string * World :=
  runCreateShorts E telegramUserId url baseUrl notify (initWorld d).

(** Everything that happened during the run. *)
Definition events (E : Env) (telegramUserId url baseUrl : string)
           (notify : option Observer) (d : Db) : list Event :=
  trace (snd (runJob E telegramUserId url baseUrl notify d)).

(** The row of the job when the run is over. *)
Definition finalJob (E : Env) (telegramUserId url baseUrl : string)
           (notify : option Observer) (d : Db) : option JobRow :=
  getJob (randomUUID E) (db (snd (runJob E telegramUserId url baseUrl notify d))).

(** The run gets as far as inserting its row: the working directory could be
    made and the drawn identifier is not in the ledger yet. *)
Definition jobCreated (E : Env) (d : Db) : Prop :=
  mkdirSync E (pathJoin (JOBS_DIR E) (randomUUID E)) = Returned tt
  /\ getJob (randomUUID E) d = None.

(** Every one of the five collaborators was invoked and resolved. *)
Definition allStagesSucceeded (tr : list Event) : Prop :=
  forall s, In s allStages -> exists v, In (EvCall s (Returned v)) tr.

(** A delivery that always works. *)
Definition delivered : list string -> string -> string -> Outcome unit :=
  fun _ _ _ => Returned tt.

(** ** Sample environments *)

Definition sampleEnv : Env :=
  {| JOBS_DIR := "/workspace/jobs";
     PORT := 8080;
     GOOGLE_CLIENT_ID := "cid";
     GOOGLE_CLIENT_SECRET := "secret";
     dateNow := fun n => 1000 + Z.of_nat n;
     randomUUID := "job-1";
     mkdirSync := fun _ => Returned tt;
     downloadVideo := fun _ dir => Returned (dir ++ "/source.mp4");
     trimAndFormat := fun _ dir => Returned (dir ++ "/shorts.mp4");
     extractAudio := fun _ dir => Returned (dir ++ "/audio.m4a");
     transcribeToSrt := fun _ => Returned "/workspace/jobs/job-1/subtitles.srt";
     uploadVideoWithCaptions := fun _ => Returned "yt42" |}.

Definition sampleToken : Credentials :=
  {| c_access_token := Some "at1"; c_refresh_token := Some "rt1";
     c_scope := Some "upload"; c_token_type := None; c_expiry_date := Some 99 |}.

Definition linkedDb : Db := upsertToken "u1" sampleToken emptyDb.

(** The environment of [sampleEnv] with a transcription service that is down. *)
Definition failingTranscriber : Env :=
  {| JOBS_DIR := JOBS_DIR sampleEnv;
     PORT := PORT sampleEnv;
     GOOGLE_CLIENT_ID := GOOGLE_CLIENT_ID sampleEnv;
     GOOGLE_CLIENT_SECRET := GOOGLE_CLIENT_SECRET sampleEnv;
     dateNow := dateNow sampleEnv;
     randomUUID := randomUUID sampleEnv;
     mkdirSync := mkdirSync sampleEnv;
     downloadVideo := downloadVideo sampleEnv;
     trimAndFormat := trimAndFormat sampleEnv;
     extractAudio := extractAudio sampleEnv;
     transcribeToSrt := fun _ => Threw (ErrorObj "APIError" "transcription service unavailable");
     uploadVideoWithCaptions := uploadVideoWithCaptions sampleEnv |}.

(** An observer that rejects when called with [bad] and resolves otherwise. *)
Definition throwsOn (bad : string) : Observer :=
  fun _ msg => if (msg =? bad)%string
               then Threw (ErrorObj "Error" "chat unreachable")
               else Returned tt.

Definition storedJob : JobRow :=
  {| job_id := "j1"; job_telegram_user_id := "u1"; source_url := "https://video/x";
     status := "completed"; created_at := 5; updated_at := 9;
     video_id := Some "yt42"; error := Some "old message" |}.

(** * The rest of the program *)

(** ** Primary keys of the other two tables *)

Definition uniqueJobIds (d : Db) : Prop :=
  forall i, (length (filter (hasJob i) (jobs d)) <= 1)%nat.

Definition uniqueStates (d : Db) : Prop :=
  forall s, (length (filter (hasState s) (oauth_states d)) <= 1)%nat.

(** The row [createJob] inserts. *)
Definition insertedJob (job : NewJob) (now : Z) : JobRow :=
  {| job_id := nj_id job;
     job_telegram_user_id := nj_telegram_user_id job;
     source_url := nj_source_url job;
     status := nj_status job;
     created_at := now;
     updated_at := now;
     video_id := None;
     error := None |}.


(** ** Base URLs ([utils/urls.js]) *)

(** [s.replace(/\/$/, '')]: a slash that ends the string is removed. *)
Fixpoint stripTrailingSlash (s : string) : string :=
  match s with
  | EmptyString => EmptyString
  | String c EmptyString => if Ascii.eqb c "/"%char then EmptyString else s
  | String c rest => String c (stripTrailingSlash rest)
  end.


(** [a || b] on optional strings: the first one that is neither missing nor
    empty. *)
Definition orElse (a : option string) (b : string) : string :=
  match orNull a with
  | Some s => s
  | None => b
  end.

(** What the code reads of an incoming request.  A query parameter is taken
    as given once, so that it is a string when present. *)
Record Request : Type := {
  x_forwarded_proto : option string;
  protocol : option string;
  x_forwarded_host : option string;
  host : option string;
  query_user_id : option string;
  query_code : option string;
  query_state : option string
}.

(** The decimal rendering of an integer in a template literal. *)
Definition decimal (z : Z) : string := NilZero.string_of_int (Z.to_int z).

(** [PUBLIC_BASE_URL] is the configuration constant, empty when unset. *)
Definition getBaseUrl (PUBLIC_BASE_URL : string) (E : Env) (req : Request) : string :=
  if (PUBLIC_BASE_URL =? "")%string
  then
    let proto := orElse (x_forwarded_proto req) (orElse (protocol req) "http") in
    let h := orElse (x_forwarded_host req)
                    (orElse (host req) ("localhost:" ++ decimal (PORT E))) in
    proto ++ "://" ++ h
  else stripTrailingSlash PUBLIC_BASE_URL.

Definition buildTelegramWebhookUrl (base : string) : string := base ++ "/webhook/telegram".

(** ** The linking flow ([oauth/google.js]) *)

Definition SCOPES : list string :=
  ["https://www.googleapis.com/auth/youtube.upload";
   "https://www.googleapis.com/auth/youtube.force-ssl"].

(** The options given to [generateAuthUrl]. *)
Record AuthUrlOptions : Type := {
  access_type : string;
  opt_scope : list string;
  prompt : string;
  opt_state : string
}.

(** [new google.auth.OAuth2(id, secret, redirectUri)], before any credentials
    are set. *)
Definition newOAuth2 (E : Env) (redirectUri : string) : OAuth2Client :=
  {| client_id := GOOGLE_CLIENT_ID E;
     client_secret := GOOGLE_CLIENT_SECRET E;
     redirect_uri := redirectUri;
     credentials := {| c_access_token := None; c_refresh_token := None;
                       c_scope := None; c_token_type := None;
                       c_expiry_date := None |} |}.

(** The authorisation server and the source of randomness: the hex string
    [crypto.randomBytes(16)] yields, the URL the client library builds, and
    the exchange of a code for a token set ([client.getToken(code)], which
    may reject, or resolve without tokens). *)
Record Google : Type := {
  randomBytesHex : string;
  generateAuthUrl : OAuth2Client -> AuthUrlOptions -> string;
  getTokenForCode : OAuth2Client -> string -> Outcome (option Credentials)
}.

(** The object [createAuthUrl] returns. *)
Record AuthUrl : Type := {
  au_url : string;
  au_state : string;
  au_redirectUri : string
}.

Definition createAuthUrl (G : Google) (E : Env) (baseUrl telegramUserId : string)
           (now : Z) (d : Db) : Outcome AuthUrl * Db :=
  let redirectUri := buildOAuthRedirectUrl baseUrl in
  let st := randomBytesHex G in
  match createState telegramUserId st now d with
  | (Threw e, d1) => (Threw e, d1)
  | (Returned _, d1) =>
      let client := newOAuth2 E redirectUri in
      let url := generateAuthUrl G client
                   {| access_type := "offline"; opt_scope := SCOPES;
                      prompt := "consent"; opt_state := st |} in
      (Returned {| au_url := url; au_state := st; au_redirectUri := redirectUri |}, d1)
  end.

(** The result of [handleOAuthCallback]: what it returns or throws, the
    database it leaves, and the codes it sent to the authorisation server. *)
Record CallbackResult : Type := {
  cb_outcome : Outcome string;
  cb_db : Db;
  cb_exchanged : list string
}.

Definition handleOAuthCallback (G : Google) (E : Env) (baseUrl code st : string)
           (d : Db) : CallbackResult :=
  match consumeState st d with
  | (None, d1) =>
      {| cb_outcome := Threw (ErrorObj "Error" "Invalid or expired state");
         cb_db := d1; cb_exchanged := [] |}
  | (Some stateRow, d1) =>
      let telegram_user_id := st_telegram_user_id stateRow in
      let redirectUri := buildOAuthRedirectUrl baseUrl in
      let client := newOAuth2 E redirectUri in
      match getTokenForCode G client code with
      | Threw e => {| cb_outcome := Threw e; cb_db := d1; cb_exchanged := [code] |}
      | Returned None =>
          {| cb_outcome := Threw (ErrorObj "Error" "No tokens received");
             cb_db := d1; cb_exchanged := [code] |}
      | Returned (Some tokens) =>
          {| cb_outcome := Returned telegram_user_id;
             cb_db := upsertToken telegram_user_id tokens d1;
             cb_exchanged := [code] |}
      end
  end.

(** ** The routes of [server.js] *)

Inductive Body : Type :=
| SendText (text : string)
| SendJob (job : JobRow)
| SendError (message : string)
| SendFile (path : string)
| Redirect (location : string).

Record Response : Type := {
  statusCode : Z;
  body : Body
}.

(** [GET /jobs/:id] *)
Definition jobsRoute (i : string) (d : Db) : Response :=
  match getJob i d with
  | None => {| statusCode := 404; body := SendError "Not found" |}
  | Some job => {| statusCode := 200; body := SendJob job |}
  end.

(** [GET /oauth2/authorize]; an error of [createAuthUrl] is not caught by
    the route. *)
Definition authorizeRoute (PUBLIC_BASE_URL : string) (G : Google) (E : Env)
           (req : Request) (now : Z) (d : Db) : Outcome Response * Db :=
  let base := getBaseUrl PUBLIC_BASE_URL E req in
  let telegramUserId := orElse (query_user_id req) "" in
  if (telegramUserId =? "")%string
  then (Returned {| statusCode := 400; body := SendText "Missing user_id" |}, d)
  else match createAuthUrl G E base telegramUserId now d with
       | (Threw e, d1) => (Threw e, d1)
       | (Returned a, d1) =>
           (Returned {| statusCode := 302; body := Redirect (au_url a) |}, d1)
       end.

(** [GET /oauth2/callback] *)
Definition callbackRoute (PUBLIC_BASE_URL : string) (G : Google) (E : Env)
           (req : Request) (d : Db) : Response * Db * list string :=
  let base := getBaseUrl PUBLIC_BASE_URL E req in
  let code := orElse (query_code req) "" in
  let st := orElse (query_state req) "" in
  let r := handleOAuthCallback G E base code st d in
  match cb_outcome r with
  | Returned _ =>
      ({| statusCode := 200; body := SendFile "/workspace/web/linked.html" |},
       cb_db r, cb_exchanged r)
  | Threw err =>
      ({| statusCode := 400; body := SendText (errText err) |},
       cb_db r, cb_exchanged r)
  end.

(** ** More samples *)

Definition sampleGoogle : Google :=
  {| randomBytesHex := "00112233445566778899aabbccddeeff";
     generateAuthUrl := fun c o =>
       "https://accounts.google.com/o/oauth2/v2/auth?state=" ++ opt_state o;
     getTokenForCode := fun _ code =>
       if (code =? "good")%string then Returned (Some sampleToken)
       else Threw (ErrorObj "GaxiosError" "invalid_grant") |}.

Definition bareRequest : Request :=
  {| x_forwarded_proto := None; protocol := Some "http";
     x_forwarded_host := None; host := Some "bot.example";
     query_user_id := None; query_code := Some "good"; query_state := None |}.


(** ** Subtitles ([pipeline/transcriber.js]) *)

(** [s.padStart(n, '0')] *)
Definition padStart0 (n : nat) (s : string) : string :=
  String.concat "" (repeat "0" (n - String.length s)) ++ s.

(** [toTimestamp].  The argument is [Math.floor(seconds * 1000)], the one
    floating-point step of the function, for a finite [seconds]; all that
    follows it is integer arithmetic. *)
Definition toTimestamp (flooredMillis : Z) : string :=
  let ms := Z.max 0 flooredMillis in
  let hh := padStart0 2 (decimal (ms / 3600000)) in
  let mm := padStart0 2 (decimal ((ms mod 3600000) / 60000)) in
  let ss := padStart0 2 (decimal ((ms mod 60000) / 1000)) in
  let mmm := padStart0 3 (decimal (ms mod 1000)) in
  hh ++ ":" ++ mm ++ ":" ++ ss ++ "," ++ mmm.

(** A segment of the transcription response.  [seg_start] and [seg_end] are
    present when the property is a number, and hold it as [toTimestamp]
    takes it; [seg_text] is the text, if any.  The numbers are finite, as
    those of a JSON response are. *)
Record Segment : Type := {
  seg_start : option Z;
  seg_end : option Z;
  seg_text : option string
}.

Definition newline : string := String (Ascii.ascii_of_nat 10) EmptyString.

Section Srt.

(** [String.prototype.trim] *)
Variable trim : string -> string.

Definition cueText (seg : Segment) : string :=
  trim match seg_text seg with Some t => t | None => "" end.

(** The four lines pushed for a segment that is kept. *)
Definition cueLines (idx : Z) (s e : Z) (text : string) : list string :=
  [decimal idx; toTimestamp s ++ " --> " ++ toTimestamp e; text; ""].

(** The body of the [for] loop of [segmentsToSrt], on the counter and the
    lines so far. *)
Definition pushSegment (acc : Z * list string) (seg : Segment) : Z * list string :=
  let (idx, lines) := acc in
  match seg_start seg, seg_end seg with
  | Some s, Some e =>
      let text := cueText seg in
      if (text =? "")%string then acc
      else (idx + 1, (lines ++ cueLines idx s e text)%list)
  | _, _ => acc
  end.

Definition srtLines (segments : list Segment) : list string :=
  snd (fold_left pushSegment segments (1, [])).

Definition segmentsToSrt (segments : list Segment) : string :=
  String.concat newline (srtLines segments).

(** A segment the loop does not skip. *)
Definition kept (seg : Segment) : bool :=
  match seg_start seg, seg_end seg with
  | Some _, Some _ => negb (cueText seg =? "")%string
  | _, _ => false
  end.

(** The lines of a kept segment numbered [idx]. *)
Definition linesOf (idx : Z) (seg : Segment) : list string :=
  match seg_start seg, seg_end seg with
  | Some s, Some e => cueLines idx s e (cueText seg)
  | _, _ => []
  end.

(** Cues numbered from [idx] on. *)
Fixpoint numbered (idx : Z) (segs : list Segment) : list string :=
  match segs with
  | [] => []
  | seg :: rest => (linesOf idx seg ++ numbered (idx + 1) rest)%list
  end.

End Srt.

(** ** Upload ([pipeline/uploader.js]) *)

(** The video platform and the file system, as [uploadVideoWithCaptions]
    uses them: [videos.insert] resolves with the id of the new video or
    rejects, [captions.insert] resolves or rejects. *)
Record YouTube : Type := {
  videos_insert : UploadRequest -> Outcome string;
  existsSync : string -> bool;
  captions_insert : string -> string -> Outcome unit
}.

(** A request sent to the platform, with what came back. *)
Inductive ApiCall : Type :=
| VideosInsert (videoFile : string) (r : Outcome string)
| CaptionsInsert (videoId srtFile : string) (r : Outcome unit).

Definition uploadVideoWithCaptionsImpl (Y : YouTube) (req : UploadRequest)
  : Outcome string * list ApiCall :=
  match videos_insert Y req with
  | Threw e => (Threw e, [VideosInsert (videoPath req) (Threw e)])
  | Returned videoId =>
      let log := [VideosInsert (videoPath req) (Returned videoId)] in
      if negb (srtPath req =? "")%string && existsSync Y (srtPath req)
      then match captions_insert Y videoId (srtPath req) with
           | Threw e =>
               (Threw e, (log ++ [CaptionsInsert videoId (srtPath req) (Threw e)])%list)
           | Returned u =>
               (Returned videoId,
                (log ++ [CaptionsInsert videoId (srtPath req) (Returned u)])%list)
           end
      else (Returned videoId, log)
  end.

Definition isVideosInsert (c : ApiCall) : bool :=
  match c with VideosInsert _ _ => true | CaptionsInsert _ _ _ => false end.

Definition isCaptionsInsert (c : ApiCall) : bool :=
  match c with CaptionsInsert _ _ _ => true | VideosInsert _ _ => false end.

(** ** Decimal digits, to speak of rendered numbers *)

Definition digit (n : Z) : ascii := ascii_of_nat (48 + Z.to_nat n).

Definition twoDigits (n : Z) : string :=
  String (digit (n / 10)) (String (digit (n mod 10)) EmptyString).

Definition threeDigits (n : Z) : string :=
  String (digit (n / 100))
         (String (digit (n / 10 mod 10)) (String (digit (n mod 10)) EmptyString)).

(** ** Samples for the upload *)

Definition sampleYouTube : YouTube :=
  {| videos_insert := fun _ => Returned "yt42";
     existsSync := fun _ => true;
     captions_insert := fun _ _ => Threw (ErrorObj "GaxiosError" "captions quota exceeded") |}.

Definition sampleUpload : UploadRequest :=
  {| oauth2Client := newOAuth2 sampleEnv "https://bot.example/oauth2/callback";
     videoPath := "/workspace/jobs/job-1/shorts.mp4";
     srtPath := "/workspace/jobs/job-1/subtitles.srt";
     title := "Shorts clip";
     description := "Generated via bot";
     tags := ["shorts"; "bot"] |}.


(** ** What a computation does to the database *)

(** [m] keeps [R]: if the database satisfies [R] before, it does after. *)
Definition keepsDb {A : Type} (R : Db -> Prop) (m : M A) : Prop :=
  forall w, R (db w) -> R (db (snd (m w))).

(** The database [d'] differs from [d] at most in the row of job [i]. *)
Definition sameElsewhere (i : string) (d d' : Db) : Prop :=
  oauth_tokens d' = oauth_tokens d
  /\ oauth_states d' = oauth_states d
  /\ forall j, j <> i -> getJob j d' = getJob j d.

Definition terminal (st : string) : Prop := st = "completed" \/ st = "failed".

(** * Properties *)

(** ** Searching and rewriting rows *)

Section Rows.

Context {A : Type}.
Variable p : A -> bool.

Lemma existsb_false_find (l : list A) :
  existsb p l = false <-> find p l = None.
Proof.
  induction l as [|a l IH]; simpl; [tauto|].
  destruct (p a); simpl; [split; discriminate | exact IH].
Qed.

Lemma existsb_true_find (l : list A) :
  existsb p l = true -> exists a, find p l = Some a.
Proof.
  induction l as [|a l IH]; simpl; [discriminate|].
  destruct (p a); simpl; eauto.
Qed.

Lemma find_app_fresh (l : list A) (a : A) :
  find p l = None -> p a = true -> find p (l ++ [a]) = Some a.
Proof.
  induction l as [|b l IH]; simpl; intros Hl Ha.
  - now rewrite Ha.
  - destruct (p b); [discriminate | auto].
Qed.

(** [UPDATE ... WHERE key = ?] followed by [SELECT ... WHERE key = ?], for
    an update [f] that leaves the key alone. *)
Lemma find_update (f : A -> A) (l : list A) :
  (forall a, p (f a) = p a) ->
  find p (map (fun a => if p a then f a else a) l) = option_map f (find p l).
Proof.
  intros Hf. induction l as [|a l IH]; simpl; [reflexivity|].
  destruct (p a) eqn:Ha.
  - now rewrite Hf, Ha.
  - now rewrite Ha.
Qed.

(** An [UPDATE] whose [WHERE] clause matches no row changes nothing. *)
Lemma update_absent (f : A -> A) (l : list A) :
  find p l = None -> map (fun a => if p a then f a else a) l = l.
Proof.
  induction l as [|a l IH]; simpl; [reflexivity|].
  destruct (p a); [discriminate|]. intros H. now rewrite IH.
Qed.

(** After [DELETE ... WHERE key = ?] no row has the key. *)
Lemma find_deleted (l : list A) :
  find p (filter (fun a => negb (p a)) l) = None.
Proof.
  induction l as [|a l IH]; simpl; [reflexivity|].
  destruct (p a) eqn:Ha; simpl; [exact IH | now rewrite Ha].
Qed.

End Rows.

Lemma set_jobs_same (d : Db) : set_jobs (jobs d) d = d.
Proof. now destruct d. Qed.

Lemma hasJob_jobUpdate i st now extra r :
  hasJob i (jobUpdate st now extra r) = hasJob i r.
Proof. reflexivity. Qed.

(** Reading a job back after [updateJobStatus]. *)
Lemma getJob_updateJobStatus i st extra now d :
  getJob i (updateJobStatus i st extra now d)
  = option_map (jobUpdate st now extra) (getJob i d).
Proof.
  unfold getJob, updateJobStatus. simpl.
  apply (find_update (hasJob i) (jobUpdate st now extra)).
  intros a. apply hasJob_jobUpdate.
Qed.

(** ** Job ledger *)

(** C2. For a stored job, [updateJobStatus] sets the status, refreshes
    [updated_at] to the current time, overwrites [error] with the supplied
    value (clearing it when none is supplied), takes a supplied [video_id],
    and keeps the stored [video_id] when none is supplied. *)
Theorem updateJobStatus_sticky_video_id_overwritten_error :
  forall (d : Db) (i st : string) (extra : Extra) (now : Z) (r : JobRow),
    getJob i d = Some r ->
    exists r',
      getJob i (updateJobStatus i st extra now d) = Some r'
      /\ status r' = st
      /\ updated_at r' = now
      /\ error r' = x_error extra
      /\ (x_video_id extra = None -> video_id r' = video_id r)
      /\ (forall v, x_video_id extra = Some v -> video_id r' = Some v)
      /\ job_id r' = job_id r
      /\ job_telegram_user_id r' = job_telegram_user_id r
      /\ source_url r' = source_url r
      /\ created_at r' = created_at r.
Proof.
  intros d i st extra now r Hr.
  exists (jobUpdate st now extra r).
  rewrite getJob_updateJobStatus, Hr. simpl.
  repeat split; trivial.
  - intros Hv. now rewrite Hv.
  - intros v Hv. now rewrite Hv.
Qed.

Lemma updateJobStatus_sticky_video_id_overwritten_error_witness :
  exists r',
    getJob "j1" (updateJobStatus "j1" "failed" noExtra 10 (set_jobs [storedJob] emptyDb))
    = Some r'
    /\ status r' = "failed" /\ updated_at r' = 10 /\ error r' = None
    /\ video_id r' = Some "yt42".
Proof.
  destruct (updateJobStatus_sticky_video_id_overwritten_error
              (set_jobs [storedJob] emptyDb) "j1" "failed" noExtra 10
              storedJob eq_refl)
    as (r' & Hget & Hst & Hup & Herr & Hkeep & _).
  exists r'. repeat split; trivial. exact (Hkeep eq_refl).
Defined.

(** C10. [updateJobStatus] on an id that the ledger does not hold returns
    normally and leaves the whole database, hence every job row and the
    number of rows, as it was. *)
Theorem updateJobStatus_missing_job_noop :
  forall (E : Env) (i st : string) (extra : Extra) (w : World),
    getJob i (db w) = None ->
    fst (updateJobStatusM E i st extra w) = Returned tt
    /\ db (snd (updateJobStatusM E i st extra w)) = db w
    /\ forall now, updateJobStatus i st extra now (db w) = db w.
Proof.
  intros E i st extra w Hnone.
  assert (Hpure : forall now, updateJobStatus i st extra now (db w) = db w).
  { intros now. unfold updateJobStatus.
    rewrite (update_absent (hasJob i) (jobUpdate st now extra) (jobs (db w)) Hnone).
    apply set_jobs_same. }
  repeat split; trivial.
  unfold updateJobStatusM, bind, Date_now. simpl. apply Hpure.
Qed.

Lemma updateJobStatus_missing_job_noop_witness :
  fst (updateJobStatusM sampleEnv "nope" "failed"
         {| x_video_id := Some "v"; x_error := Some "e" |}
         (initWorld (set_jobs [storedJob] emptyDb))) = Returned tt
  /\ db (snd (updateJobStatusM sampleEnv "nope" "failed"
                {| x_video_id := Some "v"; x_error := Some "e" |}
                (initWorld (set_jobs [storedJob] emptyDb))))
     = set_jobs [storedJob] emptyDb.
Proof.
  destruct (updateJobStatus_missing_job_noop sampleEnv "nope" "failed"
              {| x_video_id := Some "v"; x_error := Some "e" |}
              (initWorld (set_jobs [storedJob] emptyDb)) eq_refl)
    as (Hret & Hdb & _).
  split; assumption.
Defined.

(** ** Pending-authorisation ledger *)

Section MoreRows.

Context {A : Type}.
Variables p q : A -> bool.

Lemma find_app_miss (l : list A) (a : A) :
  p a = false -> find p (l ++ [a]) = find p l.
Proof.
  intros Ha. induction l as [|b l IH]; simpl.
  - now rewrite Ha.
  - now destruct (p b).
Qed.

(** Deleting rows selected by [q] does not disturb a search by [p] when no
    row satisfies both. *)
Lemma find_delete_other (l : list A) :
  (forall a, p a = true -> q a = false) ->
  find p (filter (fun a => negb (q a)) l) = find p l.
Proof.
  intros Hpq. induction l as [|a l IH]; simpl; [reflexivity|].
  destruct (p a) eqn:Hp.
  - rewrite (Hpq a Hp). simpl. now rewrite Hp.
  - destruct (q a); simpl; [exact IH | now rewrite Hp].
Qed.

Lemma find_hd_filter (l : list A) : find p l = hd_error (filter p l).
Proof.
  induction l as [|a l IH]; simpl; [reflexivity|].
  now destruct (p a).
Qed.

Lemma filter_app_one (l : list A) (a : A) :
  length (filter p (l ++ [a]))
  = (length (filter p l) + (if p a then 1 else 0))%nat.
Proof.
  rewrite filter_app, length_app. simpl. now destruct (p a).
Qed.

Lemma filter_update_length (f : A -> A) (l : list A) :
  (forall a, p (f a) = p a) ->
  length (filter p (map (fun a => if q a then f a else a) l))
  = length (filter p l).
Proof.
  intros Hf. induction l as [|a l IH]; simpl; [reflexivity|].
  assert (Hpa : p (if q a then f a else a) = p a) by (destruct (q a); auto).
  rewrite Hpa. destruct (p a); simpl; now rewrite IH.
Qed.

End MoreRows.

Lemma hasState_other s t r : t <> s -> hasState s r = true -> hasState t r = false.
Proof.
  unfold hasState. intros Hne Hs. apply String.eqb_eq in Hs.
  apply String.eqb_neq. congruence.
Qed.

(** An operation on another token leaves the pairing of [s] as it is. *)
Lemma runStateOp_other s op d :
  opToken op <> s ->
  find (hasState s) (oauth_states (runStateOp op d)) = find (hasState s) (oauth_states d).
Proof.
  intros Hne. destruct op as [u t now | t]; simpl in *.
  - unfold createState. destruct (existsb (hasState t) (oauth_states d)); simpl; trivial.
    apply find_app_miss. unfold hasState. simpl. now apply String.eqb_neq.
  - unfold consumeState. destruct (find (hasState t) (oauth_states d)); simpl; trivial.
    apply find_delete_other. intros a. now apply hasState_other.
Qed.

Lemma runStateOps_other s ops d :
  otherTokens s ops ->
  find (hasState s) (oauth_states (runStateOps ops d)) = find (hasState s) (oauth_states d).
Proof.
  unfold runStateOps. intros H. revert d.
  induction H as [|op ops Hop _ IH]; intros d; simpl; [reflexivity|].
  rewrite IH. now apply runStateOp_other.
Qed.

(** C3. A token stored by [createState] is consumed once: the first
    [consumeState] returns the row pairing it with the identity that created
    it and deletes that row; the second [consumeState] returns [null] and
    changes nothing.  Operations on other tokens may come in between. *)
Theorem consumeState_single_use :
  forall (d d1 : Db) (telegramUserId s : string) (now : Z) (ops ops' : list StateOp),
    createState telegramUserId s now d = (Returned tt, d1) ->
    otherTokens s ops ->
    otherTokens s ops' ->
    let first := consumeState s (runStateOps ops d1) in
    let second := consumeState s (runStateOps ops' (snd first)) in
    fst first = Some {| state := s; st_telegram_user_id := telegramUserId;
                        st_created_at := now |}
    /\ find (hasState s) (oauth_states (snd first)) = None
    /\ fst second = None
    /\ snd second = runStateOps ops' (snd first).
Proof.
  intros d d1 u s now ops ops' Hcreate Hops Hops' first second.
  unfold createState in Hcreate.
  destruct (existsb (hasState s) (oauth_states d)) eqn:Hex; [discriminate|].
  injection Hcreate as <-.
  apply existsb_false_find in Hex.
  assert (Hfirst : find (hasState s) (oauth_states (runStateOps ops
            (set_states (oauth_states d ++
               [{| state := s; st_telegram_user_id := u; st_created_at := now |}]) d)))
          = Some {| state := s; st_telegram_user_id := u; st_created_at := now |}).
  { rewrite runStateOps_other by assumption. simpl.
    apply find_app_fresh; [assumption|]. unfold hasState. simpl. apply String.eqb_refl. }
  assert (Hgone : find (hasState s) (oauth_states (snd first)) = None).
  { subst first. unfold consumeState. rewrite Hfirst. simpl. apply find_deleted. }
  assert (Hsecond : find (hasState s) (oauth_states (runStateOps ops' (snd first))) = None).
  { now rewrite runStateOps_other. }
  repeat split.
  - subst first. unfold consumeState. now rewrite Hfirst.
  - exact Hgone.
  - subst second. unfold consumeState. now rewrite Hsecond.
  - subst second. unfold consumeState. now rewrite Hsecond.
Qed.

Lemma consumeState_single_use_witness :
  let d1 := snd (createState "u1" "a3f0" 7 emptyDb) in
  let ops := [OpCreate "u2" "beef" 8; OpConsume "0000"] in
  let first := consumeState "a3f0" (runStateOps ops d1) in
  let second := consumeState "a3f0" (runStateOps [OpConsume "beef"] (snd first)) in
  option_map st_telegram_user_id (fst first) = Some "u1" /\ fst second = None.
Proof.
  intros d1 ops first second.
  assert (Ho : otherTokens "a3f0" ops).
  { repeat constructor; simpl; discriminate. }
  assert (Ho' : otherTokens "a3f0" [OpConsume "beef"]).
  { repeat constructor; simpl; discriminate. }
  destruct (consumeState_single_use emptyDb d1 "u1" "a3f0" 7 ops
              [OpConsume "beef"] eq_refl Ho Ho')
    as (H1 & _ & H2 & _).
  split.
  - fold first in H1 |- *. now rewrite H1.
  - exact H2.
Defined.

(** ** Credential store *)

Lemma hasToken_conflictUpdate u excluded r :
  hasToken u (tokenConflictUpdate excluded r) = hasToken u r.
Proof. reflexivity. Qed.

(** How many records an owner has after an upsert for [u]. *)
Lemma recordsOf_upsertToken u' u token d :
  length (recordsOf u' (upsertToken u token d))
  = if existsb (hasToken u) (oauth_tokens d)
    then length (recordsOf u' d)
    else (length (recordsOf u' d) + (if (u =? u')%string then 1 else 0))%nat.
Proof.
  unfold recordsOf, upsertToken.
  destruct (existsb (hasToken u) (oauth_tokens d)); simpl.
  - apply filter_update_length. intros a. apply hasToken_conflictUpdate.
  - exact (filter_app_one (hasToken u') (oauth_tokens d) (tokenParams u token)).
Qed.

(** The primary key of [oauth_tokens] survives an upsert. *)
Lemma upsertToken_oneRecordPerOwner u token d :
  oneRecordPerOwner d -> oneRecordPerOwner (upsertToken u token d).
Proof.
  intros Hd u'. rewrite recordsOf_upsertToken.
  destruct (existsb (hasToken u) (oauth_tokens d)) eqn:Hex; [apply Hd|].
  destruct (String.eqb_spec u u') as [<- | Hne].
  - apply existsb_false_find in Hex. rewrite find_hd_filter in Hex.
    unfold recordsOf. destruct (filter (hasToken u) (oauth_tokens d)); [simpl; lia | discriminate].
  - rewrite Nat.add_0_r. apply Hd.
Qed.

(** What [getToken] finds after an upsert for the same owner. *)
Lemma getToken_upsertToken u token d :
  getToken u (upsertToken u token d)
  = Some match getToken u d with
         | Some old => tokenConflictUpdate (tokenParams u token) old
         | None => tokenParams u token
         end.
Proof.
  unfold getToken, upsertToken.
  destruct (existsb (hasToken u) (oauth_tokens d)) eqn:Hex; simpl.
  - rewrite (find_update (hasToken u) (tokenConflictUpdate (tokenParams u token)))
      by (intros a; apply hasToken_conflictUpdate).
    destruct (existsb_true_find _ _ Hex) as [old Hold]. now rewrite Hold.
  - apply existsb_false_find in Hex. rewrite Hex.
    apply find_app_fresh; [assumption|]. unfold hasToken. simpl. apply String.eqb_refl.
Qed.

Lemma recordsOf_single u r d :
  oneRecordPerOwner d -> getToken u d = Some r -> recordsOf u d = [r].
Proof.
  unfold getToken, recordsOf. intros Hd Hr. specialize (Hd u). unfold recordsOf in Hd.
  rewrite find_hd_filter in Hr.
  destruct (filter (hasToken u) (oauth_tokens d)) as [|a [|b l]]; simpl in *;
    [discriminate | congruence | lia].
Qed.

Lemma orNull_storedAs (x : option string) : storedAs "" None x (orNull x).
Proof.
  unfold storedAs, orNull. split.
  - intros v -> Hv. now destruct (String.eqb_spec v "").
  - now intros [-> | ->].
Qed.

Lemma orNullZ_storedAs (x : option Z) : storedAs 0 None x (orNullZ x).
Proof.
  unfold storedAs, orNullZ. split.
  - intros v -> Hv. now destruct (Z.eqb_spec v 0).
  - now intros [-> | ->].
Qed.

Lemma token_type_storedAs (u : string) (token : Credentials) :
  storedAs "" (Some "Bearer") (c_token_type token) (token_type (tokenParams u token)).
Proof.
  unfold storedAs, tokenParams, orNull. simpl. split.
  - intros v -> Hv. now destruct (String.eqb_spec v "").
  - now intros [-> | ->].
Qed.

(** C4. Starting from a store with at most one record per owner, two
    upserts for the same owner leave at most one record per owner, exactly
    one for that owner; when the second token set carries no refresh token
    (none, or an empty one), the record keeps the refresh token it had after
    the first upsert (the one the first token set supplied, if it supplied
    one) and holds the values of the second token set in its other fields:
    its access token as given, its scope and its expiry when they are
    supplied and not empty or zero (and nothing otherwise), its token type
    when it is supplied and not empty (and [Bearer] otherwise). *)
Theorem upsertToken_sticky_refresh_token :
  forall (d : Db) (telegramUserId : string) (first second : Credentials),
    oneRecordPerOwner d ->
    c_refresh_token second = None \/ c_refresh_token second = Some "" ->
    let d1 := upsertToken telegramUserId first d in
    let d2 := upsertToken telegramUserId second d1 in
    oneRecordPerOwner d1
    /\ oneRecordPerOwner d2
    /\ exists r1 r2,
        getToken telegramUserId d1 = Some r1
        /\ getToken telegramUserId d2 = Some r2
        /\ recordsOf telegramUserId d2 = [r2]
        /\ refresh_token r2 = refresh_token r1
        /\ (forall rt, c_refresh_token first = Some rt -> rt <> "" ->
                       refresh_token r2 = Some rt)
        /\ access_token r2 = c_access_token second
        /\ storedAs "" None (c_scope second) (scope r2)
        /\ storedAs "" (Some "Bearer") (c_token_type second) (token_type r2)
        /\ storedAs 0 None (c_expiry_date second) (expiry_date r2).
Proof.
  intros d u t1 t2 Hd Hmissing d1 d2.
  assert (Hnone : orNull (c_refresh_token t2) = None)
    by (destruct Hmissing as [-> | ->]; reflexivity).
  assert (Hd1 : oneRecordPerOwner d1) by now apply upsertToken_oneRecordPerOwner.
  assert (Hd2 : oneRecordPerOwner d2) by now apply upsertToken_oneRecordPerOwner.
  pose proof (getToken_upsertToken u t1 d) as H1. fold d1 in H1.
  pose proof (getToken_upsertToken u t2 d1) as H2. fold d2 in H2.
  rewrite H1 in H2.
  split; [exact Hd1|]. split; [exact Hd2|].
  eexists. eexists. split; [exact H1|]. split; [exact H2|].
  split; [now apply recordsOf_single|].
  simpl. rewrite Hnone. simpl.
  split; [reflexivity|].
  split.
  { intros rt Hrt Hne. pose proof (proj1 (orNull_storedAs _) rt Hrt Hne) as Hst.
    destruct (getToken u d); simpl; now rewrite Hst. }
  split; [reflexivity|].
  split; [apply orNull_storedAs|].
  split; [apply (token_type_storedAs u) | apply orNullZ_storedAs].
Qed.

Lemma upsertToken_sticky_refresh_token_witness :
  let d2 := upsertToken "u1"
              {| c_access_token := Some "at2"; c_refresh_token := None;
                 c_scope := Some "upload force-ssl"; c_token_type := None;
                 c_expiry_date := Some 200 |}
              (upsertToken "u1" sampleToken emptyDb) in
  exists r2, recordsOf "u1" d2 = [r2]
             /\ refresh_token r2 = Some "rt1"
             /\ access_token r2 = Some "at2"
             /\ scope r2 = Some "upload force-ssl"
             /\ token_type r2 = Some "Bearer"
             /\ expiry_date r2 = Some 200.
Proof.
  assert (H0 : oneRecordPerOwner emptyDb) by (intros u; simpl; lia).
  destruct (upsertToken_sticky_refresh_token emptyDb "u1" sampleToken
              {| c_access_token := Some "at2"; c_refresh_token := None;
                 c_scope := Some "upload force-ssl"; c_token_type := None;
                 c_expiry_date := Some 200 |} H0 (or_introl eq_refl))
    as (_ & _ & r1 & r2 & _ & _ & Hrec & _ & Hrt & Hat & Hsc & Hty & Hex).
  exists r2. split; [exact Hrec|].
  split; [apply (Hrt "rt1" eq_refl); discriminate|].
  split; [exact Hat|].
  split; [apply (proj1 Hsc _ eq_refl); discriminate|].
  split; [apply (proj2 Hty); left; reflexivity|].
  apply (proj1 Hex 200 eq_refl). discriminate.
Defined.

(** ** Job runner *)

(** *** Reasoning backwards through the monad *)

Lemma wp_bind {A B : Type} (m : M A) (k : A -> M B) w Q :
  wp m w (fun r => match r with
                   | (Returned a, w1) => wp (k a) w1 Q
                   | (Threw e, w1) => Q (Threw e, w1)
                   end) ->
  wp (bind m k) w Q.
Proof. unfold wp, bind. now destruct (m w) as [[a | e] w1]. Qed.

Lemma wp_tryCatch {A : Type} (body : M A) (handler : Thrown -> M A) w Q :
  wp body w (fun r => match r with
                      | (Returned a, w1) => Q (Returned a, w1)
                      | (Threw e, w1) => wp (handler e) w1 Q
                      end) ->
  wp (tryCatch body handler) w Q.
Proof. unfold wp, tryCatch. now destruct (body w) as [[a | e] w1]. Qed.

Lemma wp_ret {A : Type} (a : A) w Q : Q (Returned a, w) -> wp (ret a) w Q.
Proof. trivial. Qed.

Lemma wp_throw {A : Type} (e : Thrown) w (Q : Outcome A * World -> Prop) :
  Q (Threw e, w) -> wp (throw e) w Q.
Proof. trivial. Qed.

Lemma wp_mkdirSyncM E dir w Q :
  (forall o, mkdirSync E dir = o -> Q (o, w)) -> wp (mkdirSyncM E dir) w Q.
Proof. intros H. now apply H. Qed.

Lemma wp_await s r w Q :
  (forall o, r = o -> Q (o, logEvent (EvCall s o) w)) -> wp (await s r) w Q.
Proof. intros H. now apply H. Qed.

Lemma wp_awaitNotify_None msg w Q :
  Q (Returned tt, w) -> wp (awaitNotify None msg) w Q.
Proof. trivial. Qed.

Lemma wp_awaitNotify_Some f msg w Q :
  (forall o, f (notified (trace w)) msg = o -> Q (o, logEvent (EvNotify msg o) w)) ->
  wp (awaitNotify (Some f) msg) w Q.
Proof. intros H. now apply H. Qed.

Lemma wp_getAuthorizedClientM E u b w Q :
  (forall c, getAuthorizedClient E u b (db w) = c -> Q (Returned c, w)) ->
  wp (getAuthorizedClientM E u b) w Q.
Proof. intros H. now apply H. Qed.

Lemma createJob_cases job now d :
  (getJob (nj_id job) d <> None
   /\ createJob job now d = (Threw (uniqueViolation "jobs.id"), d))
  \/ (getJob (nj_id job) d = None
      /\ exists d',
          createJob job now d = (Returned tt, d')
          /\ getJob (nj_id job) d'
             = Some {| job_id := nj_id job;
                       job_telegram_user_id := nj_telegram_user_id job;
                       source_url := nj_source_url job;
                       status := nj_status job;
                       created_at := now;
                       updated_at := now;
                       video_id := None;
                       error := None |}
          /\ oauth_tokens d' = oauth_tokens d).
Proof.
  unfold createJob, getJob.
  destruct (existsb (hasJob (nj_id job)) (jobs d)) eqn:Hex.
  - left. split; [|reflexivity].
    destruct (existsb_true_find _ _ Hex) as [a Ha]. congruence.
  - right. apply existsb_false_find in Hex. split; [assumption|].
    eexists. split; [reflexivity|]. split; [|reflexivity].
    simpl. apply find_app_fresh; [assumption|].
    unfold hasJob. simpl. apply String.eqb_refl.
Qed.

Lemma getAuthorizedClient_tokens E u b d d' :
  oauth_tokens d' = oauth_tokens d ->
  getAuthorizedClient E u b d' = getAuthorizedClient E u b d.
Proof. unfold getAuthorizedClient, getToken. now intros ->. Qed.

Lemma getAuthorizedClient_None E u b d :
  getToken u d = None -> getAuthorizedClient E u b d = None.
Proof. unfold getAuthorizedClient. now intros ->. Qed.

Lemma prefix_append (s t : string) : String.prefix s (s ++ t) = true.
Proof.
  induction s as [|a s IH]; simpl.
  - now destruct t.
  - destruct (Ascii.ascii_dec a a); [exact IH | congruence].
Qed.

Lemma validPath_firstn (l : list string) (k : nat) :
  validPath l = true -> validPath (firstn k l) = true.
Proof.
  unfold validPath. rewrite orb_true_iff, !existsb_exists.
  intros [[n [Hn Hl]] | [n [Hn Hl]]];
    unfold strings_eqb in Hl;
    destruct (list_eq_dec string_dec l _) as [-> | _]; try discriminate;
    simpl in Hn; clear Hl;
    repeat (destruct Hn as [<- | Hn]; [ | ]); try contradiction;
    do 9 (destruct k as [|k]; [vm_compute; trivial|]); vm_compute; trivial.
Qed.

(** The database after a write is only known through the row of the job and
    through the credentials, which a write to the ledger leaves alone. *)
Lemma wp_createJobM E job w Q :
  (getJob (nj_id job) (db w) <> None ->
   Q (Threw (uniqueViolation "jobs.id"),
      {| db := db w; ticks := S (ticks w); trace := trace w |})) ->
  (forall d' row,
      row = {| job_id := nj_id job;
               job_telegram_user_id := nj_telegram_user_id job;
               source_url := nj_source_url job;
               status := nj_status job;
               created_at := dateNow E (ticks w);
               updated_at := dateNow E (ticks w);
               video_id := None;
               error := None |} ->
      getJob (nj_id job) (db w) = None ->
      getJob (nj_id job) d' = Some row ->
      (forall u b, getAuthorizedClient E u b d' = getAuthorizedClient E u b (db w)) ->
      Q (Returned tt,
         {| db := d'; ticks := S (ticks w);
            trace := trace w ++ [EvLedger (nj_id job) (Some row)] |})) ->
  wp (createJobM E job) w Q.
Proof.
  intros Hdup Hnew. unfold wp, createJobM, bind, Date_now, logEvent. simpl.
  destruct (createJob_cases job (dateNow E (ticks w)) (db w))
    as [[Hsome Hc] | [Hnone (d' & Hc & Hrow & Htok)]]; rewrite Hc.
  - now apply Hdup.
  - rewrite Hrow. apply Hnew; trivial.
    intros u b. now apply getAuthorizedClient_tokens.
Qed.

Lemma wp_updateJobStatusM E i st extra w r Q :
  getJob i (db w) = Some r ->
  (forall d' row,
      row = jobUpdate st (dateNow E (ticks w)) extra r ->
      getJob i d' = Some row ->
      (forall u b, getAuthorizedClient E u b d' = getAuthorizedClient E u b (db w)) ->
      Q (Returned tt,
         {| db := d'; ticks := S (ticks w);
            trace := trace w ++ [EvLedger i (Some row)] |})) ->
  wp (updateJobStatusM E i st extra) w Q.
Proof.
  intros Hr H. unfold wp, updateJobStatusM, bind, Date_now, logEvent. simpl.
  rewrite getJob_updateJobStatus, Hr. simpl. apply H; trivial.
  now rewrite getJob_updateJobStatus, Hr.
Qed.

Opaque getJob updateJobStatus createJob getAuthorizedClient String.append pathJoin.

(** *** Symbolic execution of a run *)

(** One step backwards through the program of the run. *)
Ltac wp_step :=
  lazymatch goal with
  | |- wp (bind _ _) _ _ => apply wp_bind
  | |- wp (tryCatch _ _) _ _ => apply wp_tryCatch
  | |- wp (step _ _ _ _ _) _ _ => unfold step
  | |- wp (ret _) _ _ => apply wp_ret
  | |- wp (throw _) _ _ => apply wp_throw
  | |- wp (mkdirSyncM _ _) _ _ =>
      apply wp_mkdirSyncM; intros [[] | ?] ?
  | |- wp (await _ _) _ _ => apply wp_await; intros [? | ?] ?
  | |- wp (awaitNotify None _) _ _ => apply wp_awaitNotify_None
  | |- wp (awaitNotify (Some _) _) _ _ =>
      apply wp_awaitNotify_Some; intros [[] | ?] ?
  | |- wp (getAuthorizedClientM _ _ _) _ _ =>
      let Hc := fresh "Hclient" in
      apply wp_getAuthorizedClientM; intros ? Hc;
      cbn [db] in Hc;
      repeat match goal with
             | Hf : forall u b, getAuthorizedClient _ u b _ = _ |- _ =>
                 rewrite Hf in Hc
             end;
      match type of Hc with _ = ?c => destruct c end
  | |- wp (createJobM _ _) _ _ =>
      apply wp_createJobM; [intros ? | intros ? ? -> ? ? ?]
  | |- wp (updateJobStatusM _ _ _ _) _ _ =>
      eapply wp_updateJobStatusM; [eassumption | intros ? ? -> ? ?]
  end;
  cbv beta iota;
  cbn [db ticks trace logEvent initWorld nj_id nj_telegram_user_id
       nj_source_url nj_status app notified flat_map] in *.

(** Put the statement in the form [wp (runCreateShorts ...) w Q], set [Q]
    aside, run through the program, and come back to [Q] at every end. *)
Ltac run_cases :=
  unfold events, finalJob in *;
  lazymatch goal with
  | |- context [runJob ?E ?u ?url ?b ?n ?d] =>
      let Q := fresh "Q" in
      pattern (runJob E u url b n d);
      lazymatch goal with
      | |- ?F _ =>
          set (Q := F);
          change (wp (runCreateShorts E u url b n) (initWorld d) Q)
      end;
      unfold runCreateShorts;
      repeat wp_step;
      subst Q; cbv beta; cbn [fst snd db ticks trace logEvent app]
  end.

(** Membership of an event in an explicit list of events. *)
Ltac split_In H :=
  repeat (destruct H as [H | H]; [try discriminate H | ]); try contradiction.

Ltac prove_In := repeat first [left; reflexivity | right].

(** Ends of a run that the assumptions exclude. *)
Ltac impossible := exfalso; congruence.

(** With an observer known to resolve on some messages, the ends where it
    rejected one of them are excluded. *)
Ltac reliable Hn :=
  match goal with
  | H : ?f _ _ = Threw _ |- _ => exfalso; rewrite Hn in H; discriminate H
  end.

(** The row of the job in the last database of the run. *)
Ltac read_final :=
  match goal with
  | H : getJob _ ?d = Some _ |- context [getJob _ ?d] => rewrite H
  end.

(** The rows and statuses written by an explicit list of events. *)
Ltac read_statuses :=
  cbn [statusesWritten ledgerRows flat_map app map];
  rewrite ?String.eqb_refl;
  cbn [statusesWritten ledgerRows flat_map app map status jobUpdate].

Lemma prefix_empty (s : string) : String.prefix "" s = true.
Proof. now destruct s. Qed.

Lemma correlated_intro (r : JobRow) :
  (status r =? "completed")%string = isSome (video_id r) ->
  (status r =? "failed")%string = isSome (error r) ->
  correlated r.
Proof.
  unfold correlated. intros Hv He.
  destruct (String.eqb_spec (status r) "completed") as [Hc | Hc];
    destruct (String.eqb_spec (status r) "failed") as [Hf | Hf];
    destruct (video_id r), (error r); simpl in *; try discriminate;
    try (rewrite Hc in Hf; discriminate);
    repeat split; intros; try congruence; auto.
Qed.

(** *** Missing credentials *)

(** C5. In a run whose row was created and whose owner has no record in the
    credential store, the upload collaborator is never invoked, the status
    [uploading] is never written, and the job ends [failed]; when the run
    got as far as the credential lookup, that is when the transcription
    stage resolved, the stored error is the message that tells the owner to
    link the account. *)
Theorem missing_credentials_fail_the_job_before_upload E user url base notify d :
    jobCreated E d ->
    getToken user d = None ->
    invocations Upload (events E user url base notify d) = 0%nat
    /\ ~ In "uploading" (statusesWritten (randomUUID E) (events E user url base notify d))
    /\ exists r,
        finalJob E user url base notify d = Some r
        /\ status r = "failed"
        /\ ((exists srt, In (EvCall Transcribe (Returned srt))
                            (events E user url base notify d)) ->
            error r = Some "Google not linked. Use the dashboard to connect your YouTube.").
Proof.
  intros [Hmk Hfresh] Htoken.
  pose proof (getAuthorizedClient_None E user base d Htoken) as Hnone.
  destruct notify as [f|].
  all: run_cases; try impossible.
  all: read_final.
  all: cbn; rewrite ?String.eqb_refl; cbn.
  all: split; [reflexivity|]; split; [intros Hup; split_In Hup|].
  all: eexists; split; [reflexivity|]; split; [reflexivity|].
  all: intros [srt Hsrt]; split_In Hsrt; reflexivity.
Qed.

Lemma missing_credentials_fail_the_job_before_upload_witness :
  invocations Upload (events sampleEnv "u1" "https://video/x" "http://localhost:8080"
                             (Some noop) emptyDb) = 0%nat
  /\ exists r,
      finalJob sampleEnv "u1" "https://video/x" "http://localhost:8080" (Some noop) emptyDb
      = Some r
      /\ status r = "failed"
      /\ error r = Some "Google not linked. Use the dashboard to connect your YouTube.".
Proof.
  assert (Hc : jobCreated sampleEnv emptyDb) by (split; vm_compute; reflexivity).
  assert (Ht : getToken "u1" emptyDb = None) by (vm_compute; reflexivity).
  destruct (missing_credentials_fail_the_job_before_upload
              sampleEnv "u1" "https://video/x" "http://localhost:8080" (Some noop)
              emptyDb Hc Ht)
    as (Hup & _ & r & Hr & Hst & Herr).
  split; [exact Hup|]. exists r. split; [exact Hr|]. split; [exact Hst|].
  apply Herr. eexists. vm_compute. prove_In.
Defined.

(** *** Collaborator failures *)

(** C6, as the code has it.  No collaborator is invoked more than once in a
    run.  When a collaborator rejects with [e], the job ends [failed] with
    [String(e?.message || e)] as its error, an observer receives exactly one
    [failed: ...] notification, which carries that text, and [e] does not
    leave [runCreateShorts]: the run returns the job id, unless the observer
    itself rejects that last notification, in which case the observer's
    error is what leaves. *)
Theorem collaborator_failure_recorded_not_raised E user url base notify d :
  (forall s, (invocations s (events E user url base notify d) <= 1)%nat)
  /\ forall s e,
      In (EvCall s (Threw e)) (events E user url base notify d) ->
      (exists r, finalJob E user url base notify d = Some r
                 /\ status r = "failed" /\ error r = Some (errText e))
      /\ (forall f, notify = Some f ->
                    failedNotifications (events E user url base notify d)
                    = ["failed: " ++ errText e])
      /\ (fst (runJob E user url base notify d) = Returned (randomUUID E)
          \/ exists e',
              In (EvNotify ("failed: " ++ errText e) (Threw e'))
                 (events E user url base notify d)
              /\ fst (runJob E user url base notify d) = Threw e').
Proof.
  destruct notify as [f|].
  all: run_cases.
  all: (split; [intros st; destruct st; cbn; lia|]).
  all: intros st err Hin; split_In Hin.
  all: injection Hin as <- <-.
  all: read_final; cbn.
  all: split; [eexists; split; [reflexivity|]; split; reflexivity|].
  all: split; [intros f' Hf; try discriminate Hf; cbn;
               rewrite ?prefix_append, ?prefix_empty; reflexivity|].
  all: first [left; reflexivity | right; eexists; split; [prove_In | reflexivity]].
Qed.

Lemma collaborator_failure_recorded_not_raised_witness :
  (exists r,
      finalJob failingTranscriber "u1" "https://video/x" "http://localhost:8080"
               (Some noop) linkedDb = Some r
      /\ status r = "failed"
      /\ error r = Some "transcription service unavailable")
  /\ failedNotifications
       (events failingTranscriber "u1" "https://video/x" "http://localhost:8080"
               (Some noop) linkedDb)
     = ["failed: transcription service unavailable"]
  /\ (invocations Transcribe
        (events failingTranscriber "u1" "https://video/x" "http://localhost:8080"
                (Some noop) linkedDb) <= 1)%nat.
Proof.
  assert (Hin : In (EvCall Transcribe
                      (Threw (ErrorObj "APIError" "transcription service unavailable")))
                   (events failingTranscriber "u1" "https://video/x"
                           "http://localhost:8080" (Some noop) linkedDb)).
  { vm_compute. prove_In. }
  destruct (collaborator_failure_recorded_not_raised
              failingTranscriber "u1" "https://video/x" "http://localhost:8080"
              (Some noop) linkedDb)
    as (Honce & Hfail).
  destruct (Hfail Transcribe
              (ErrorObj "APIError" "transcription service unavailable") Hin)
    as (Hrow & Hmsg & _).
  split; [exact Hrow|]. split; [exact (Hmsg noop eq_refl) | exact (Honce Transcribe)].
Defined.

(** C6, as stated, fails in one respect: [runCreateShorts] can throw after a
    collaborator failure, namely when the observer rejects the [failed: ...]
    notification sent from the catch block.  The failure is recorded all the
    same. *)
Lemma collaborator_failure_then_observer_failure_raises :
  In (EvCall Transcribe
        (Threw (ErrorObj "APIError" "transcription service unavailable")))
     (events failingTranscriber "u1" "https://video/x" "http://localhost:8080"
             (Some (throwsOn "failed: transcription service unavailable")) linkedDb)
  /\ fst (runJob failingTranscriber "u1" "https://video/x" "http://localhost:8080"
                 (Some (throwsOn "failed: transcription service unavailable")) linkedDb)
     = Threw (ErrorObj "Error" "chat unreachable")
  /\ option_map status
       (finalJob failingTranscriber "u1" "https://video/x" "http://localhost:8080"
                 (Some (throwsOn "failed: transcription service unavailable")) linkedDb)
     = Some "failed".
Proof.
  split; [vm_compute; prove_In|].
  split; vm_compute; reflexivity.
Qed.

(** *** The path of statuses *)

(** C7, as the code has it.  With an observer that does not reject the
    [completed] notification (or none), whatever it does with the others,
    at every moment of a run the statuses written so far for the job are a
    prefix of [queued], [downloading], [processing], [audio_extract],
    [transcribing], [uploading], [completed], or such a prefix that stops
    before [completed] followed by [failed]. *)
Theorem status_path_when_completed_is_delivered E user url base notify d :
  resolvesCompleted notify ->
  forall k,
    validPath (firstn k (statusesWritten (randomUUID E)
                           (events E user url base notify d))) = true.
Proof.
  intros Hn k. apply validPath_firstn.
  destruct notify as [f|]; simpl in Hn.
  all: run_cases; try reliable Hn.
  all: read_statuses.
  all: vm_compute; reflexivity.
Qed.

Lemma status_path_when_completed_is_delivered_witness :
  validPath (firstn 3 (statusesWritten "job-1"
                         (events sampleEnv "u1" "https://video/x"
                                 "http://localhost:8080"
                                 (Some (throwsOn "downloading")) linkedDb))) = true.
Proof.
  apply (status_path_when_completed_is_delivered
           sampleEnv "u1" "https://video/x" "http://localhost:8080"
           (Some (throwsOn "downloading")) linkedDb).
  simpl. intros sent. reflexivity.
Defined.

(** C7, as stated, fails: an observer that rejects the [completed]
    notification makes the run write [failed] after [completed]. *)
Lemma completed_job_leaves_terminal_state :
  statusesWritten "job-1"
    (events sampleEnv "u1" "https://video/x" "http://localhost:8080"
            (Some (throwsOn "completed")) linkedDb)
  = ["queued"; "downloading"; "processing"; "audio_extract"; "transcribing";
     "uploading"; "completed"; "failed"]
  /\ validPath
       (statusesWritten "job-1"
          (events sampleEnv "u1" "https://video/x" "http://localhost:8080"
                  (Some (throwsOn "completed")) linkedDb)) = false.
Proof. split; vm_compute; reflexivity. Qed.

(** *** Result, error and status *)

(** C8, as the code has it.  With an observer that does not reject the
    [completed] notification (or none), whatever it does with the others,
    and an upload collaborator that, when it resolves, yields the identifier
    of the video (a string, as [uploadVideoWithCaptions] of [Env] is typed),
    every version of the job's row that a run stores has [video_id] set
    exactly when the status is [completed], [error] set exactly when the
    status is [failed], and never both. *)
Theorem fields_correlate_when_completed_is_delivered E user url base notify d :
  resolvesCompleted notify ->
  Forall correlated (ledgerRows (randomUUID E) (events E user url base notify d)).
Proof.
  intros Hn.
  destruct notify as [f|]; simpl in Hn.
  all: run_cases; try reliable Hn.
  all: read_statuses.
  all: repeat (apply Forall_cons; [apply correlated_intro; reflexivity|]).
  all: apply Forall_nil.
Qed.

Lemma fields_correlate_when_completed_is_delivered_witness :
  Forall correlated
    (ledgerRows "job-1"
       (events failingTranscriber "u1" "https://video/x" "http://localhost:8080"
               (Some (throwsOn "failed: transcription service unavailable"))
               linkedDb)).
Proof.
  apply (fields_correlate_when_completed_is_delivered
           failingTranscriber "u1" "https://video/x" "http://localhost:8080"
           (Some (throwsOn "failed: transcription service unavailable")) linkedDb).
  simpl. intros sent. reflexivity.
Defined.

(** C8, as stated, fails: when the observer rejects the [completed]
    notification, the job is stored [failed] with both its [video_id] and an
    [error]. *)
Lemma failed_job_with_video_id_and_error :
  exists r,
    finalJob sampleEnv "u1" "https://video/x" "http://localhost:8080"
             (Some (throwsOn "completed")) linkedDb = Some r
    /\ status r = "failed"
    /\ video_id r = Some "yt42"
    /\ error r = Some "chat unreachable"
    /\ ~ correlated r.
Proof.
  eexists. split; [vm_compute; reflexivity|].
  repeat split.
  intros (_ & _ & [Hv | He]); discriminate.
Qed.

(** *** The successful run *)

(** C9, as the code has it.  With an observer that does not reject the
    [completed] notification (or none),
    a run in which the five collaborators resolved and whose owner has a
    credential record ends [completed], with the identifier returned by the
    upload collaborator as [video_id] and no error; the run returns the job
    id, and an observer has been called with each stage in turn and last
    with [completed]. *)
Theorem all_stages_succeed_completes_when_completed_is_delivered
        E user url base notify d :
  resolvesCompleted notify ->
  getToken user d <> None ->
  allStagesSucceeded (events E user url base notify d) ->
  exists vid,
    In (EvCall Upload (Returned vid)) (events E user url base notify d)
    /\ (exists r, finalJob E user url base notify d = Some r
                  /\ status r = "completed"
                  /\ video_id r = Some vid
                  /\ error r = None)
    /\ fst (runJob E user url base notify d) = Returned (randomUUID E)
    /\ (forall f, notify = Some f ->
                  notified (events E user url base notify d)
                  = ["downloading"; "processing"; "audio_extract"; "transcribing";
                     "uploading"; "completed"]).
Proof.
  intros Hn Htoken.
  destruct notify as [f|]; simpl in Hn.
  all: run_cases; try reliable Hn.
  all: intros Hall;
    destruct (Hall Upload (or_intror (or_intror (or_intror (or_intror (or_introl eq_refl))))))
      as [vid Hvid];
    split_In Hvid.
  all: injection Hvid as <-.
  all: eexists; split; [prove_In|].
  all: read_final; cbn.
  all: split; [eexists; repeat split; reflexivity|].
  all: split; [reflexivity|].
  all: intros f' Hf; try discriminate Hf; reflexivity.
Qed.

Lemma sample_stages_succeed (notify : option Observer) :
  match notify with
  | Some f => f = noop \/ f = throwsOn "completed"
  | None => True
  end ->
  allStagesSucceeded
    (events sampleEnv "u1" "https://video/x" "http://localhost:8080" notify linkedDb).
Proof.
  intros Hf s Hs.
  destruct notify as [f|]; [destruct Hf as [-> | ->]|];
    unfold allStages in Hs; split_In Hs; subst s;
    eexists; vm_compute; prove_In.
Qed.

Lemma all_stages_succeed_completes_when_completed_is_delivered_witness :
  exists vid,
    In (EvCall Upload (Returned vid))
       (events sampleEnv "u1" "https://video/x" "http://localhost:8080" (Some noop) linkedDb)
    /\ exists r,
        finalJob sampleEnv "u1" "https://video/x" "http://localhost:8080" (Some noop)
                 linkedDb = Some r
        /\ status r = "completed"
        /\ video_id r = Some vid
        /\ error r = None.
Proof.
  assert (Hn : resolvesCompleted (Some noop)) by (simpl; intros sent; reflexivity).
  assert (Ht : getToken "u1" linkedDb <> None) by (vm_compute; discriminate).
  destruct (all_stages_succeed_completes_when_completed_is_delivered
              sampleEnv "u1" "https://video/x" "http://localhost:8080" (Some noop)
              linkedDb Hn Ht (sample_stages_succeed (Some noop) (or_introl eq_refl)))
    as (vid & Hvid & Hrow & _).
  exists vid. split; [exact Hvid | exact Hrow].
Defined.

(** C9, as stated, fails: the five collaborators resolve and the owner is
    linked, yet the job ends [failed] because the observer rejected the
    [completed] notification. *)
Lemma all_stages_succeed_but_job_ends_failed :
  allStagesSucceeded
    (events sampleEnv "u1" "https://video/x" "http://localhost:8080"
            (Some (throwsOn "completed")) linkedDb)
  /\ getToken "u1" linkedDb <> None
  /\ option_map status
       (finalJob sampleEnv "u1" "https://video/x" "http://localhost:8080"
                 (Some (throwsOn "completed")) linkedDb) = Some "failed".
Proof.
  split; [apply sample_stages_succeed; right; reflexivity|].
  split; [vm_compute; discriminate | vm_compute; reflexivity].
Qed.

(** *** The observer only matters through what it returns *)

Lemma bind_ext {A B : Type} (m m' : M A) (k k' : A -> M B) w :
  (forall w1, m w1 = m' w1) ->
  (forall a w1, k a w1 = k' a w1) ->
  bind m k w = bind m' k' w.
Proof.
  intros Hm Hk. unfold bind. rewrite Hm.
  destruct (m' w) as [[a | e] w1]; [apply Hk | reflexivity].
Qed.

Lemma tryCatch_ext {A : Type} (body body' : M A) (h h' : Thrown -> M A) w :
  (forall w1, body w1 = body' w1) ->
  (forall e w1, h e w1 = h' e w1) ->
  tryCatch body h w = tryCatch body' h' w.
Proof.
  intros Hb Hh. unfold tryCatch. rewrite Hb.
  destruct (body' w) as [[a | e] w1]; [reflexivity | apply Hh].
Qed.

Lemma awaitNotify_ext (f g : Observer) msg w :
  (forall sent m, f sent m = g sent m) ->
  awaitNotify (Some f) msg w = awaitNotify (Some g) msg w.
Proof. intros H. unfold awaitNotify. now rewrite H. Qed.

(** Two observers that return the same results give the same run. *)
Lemma runCreateShorts_ext E user url base (f g : Observer) w :
  (forall sent m, f sent m = g sent m) ->
  runCreateShorts E user url base (Some f) w
  = runCreateShorts E user url base (Some g) w.
Proof.
  intros H. unfold runCreateShorts, step.
  repeat first
    [ reflexivity
    | apply awaitNotify_ext; exact H
    | apply bind_ext; intros
    | apply tryCatch_ext; intros
    | match goal with
      | |- (match ?c with Some _ => _ | None => _ end) _ = _ => destruct c
      end ].
Qed.

(** C1, as the code has it.  A job started through the handler of
    [server.js] is notified through the adapter, which catches whatever
    [sendMessage] throws: whether and when delivery fails, the run returns
    the same value and leaves the same database and the same history of
    writes, notifications and collaborator calls as when every delivery
    succeeds. *)
Theorem adapter_swallows_delivery_failure E sendMessage user url w :
  onCreateShorts E sendMessage user url w = onCreateShorts E delivered user url w.
Proof.
  unfold onCreateShorts. apply runCreateShorts_ext.
  intros sent m. unfold botNotify, delivered.
  now destruct (sendMessage sent user _).
Qed.

(** C1, as stated, fails: [runCreateShorts] has no handler of its own around
    [notify].  An observer that rejects the [downloading] notification makes
    the job end [failed] without any collaborator being invoked, where the
    same run with an observer that resolves ends [completed]. *)
Lemma throwing_observer_fails_the_job :
  option_map status
    (finalJob sampleEnv "u1" "https://video/x" "http://localhost:8080"
              (Some (throwsOn "downloading")) linkedDb) = Some "failed"
  /\ option_map error
       (finalJob sampleEnv "u1" "https://video/x" "http://localhost:8080"
                 (Some (throwsOn "downloading")) linkedDb)
     = Some (Some "chat unreachable")
  /\ (forall s, invocations s
                  (events sampleEnv "u1" "https://video/x" "http://localhost:8080"
                          (Some (throwsOn "downloading")) linkedDb) = 0%nat)
  /\ option_map status
       (finalJob sampleEnv "u1" "https://video/x" "http://localhost:8080"
                 (Some noop) linkedDb) = Some "completed".
Proof.
  split; [vm_compute; reflexivity|].
  split; [vm_compute; reflexivity|].
  split; [intros s; destruct s; vm_compute; reflexivity|].
  vm_compute; reflexivity.
Qed.

Transparent getJob updateJobStatus createJob getAuthorizedClient String.append pathJoin.

(** The scenario of the spec in which the transcription service fails. *)
Example transcriber_failure_scenario :
  notified (events failingTranscriber "u1" "https://video/x" "http://localhost:8080"
                   (Some noop) linkedDb)
  = ["downloading"; "processing"; "audio_extract"; "transcribing";
     "failed: transcription service unavailable"]
  /\ statusesWritten "job-1"
       (events failingTranscriber "u1" "https://video/x" "http://localhost:8080"
               (Some noop) linkedDb)
     = ["queued"; "downloading"; "processing"; "audio_extract"; "transcribing"; "failed"].
Proof. split; reflexivity. Qed.

(** * Properties of the rest of the program *)

(** ** Job ledger: insertion, keys, frames *)

Section KeyedRows.

Context {A : Type}.
Variables p q : A -> bool.

Lemma find_update_other (f : A -> A) (l : list A) :
  (forall a, p (f a) = p a) ->
  (forall a, p a = true -> q a = false) ->
  find p (map (fun a => if q a then f a else a) l) = find p l.
Proof.
  intros Hf Hpq. induction l as [|a l IH]; simpl; [reflexivity|].
  destruct (q a) eqn:Hq.
  - rewrite Hf. destruct (p a) eqn:Hp; [|exact IH].
    rewrite (Hpq a Hp) in Hq. discriminate.
  - destruct (p a); [reflexivity | exact IH].
Qed.

Lemma filter_none_of_find (l : list A) : find p l = None -> filter p l = [].
Proof.
  induction l as [|a l IH]; simpl; [reflexivity|].
  destruct (p a); [discriminate | exact IH].
Qed.

Lemma filter_delete_length (l : list A) :
  (length (filter p (filter (fun a => negb (q a)) l)) <= length (filter p l))%nat.
Proof.
  induction l as [|a l IH]; simpl; [lia|].
  destruct (q a); simpl; destruct (p a); simpl; lia.
Qed.

Lemma filter_twice (l : list A) : filter p (filter p l) = filter p l.
Proof.
  induction l as [|a l IH]; simpl; [reflexivity|].
  destruct (p a) eqn:Ha; simpl; [rewrite Ha; f_equal|]; exact IH.
Qed.

End KeyedRows.

Lemma hasJob_other i j r : j <> i -> hasJob i r = true -> hasJob j r = false.
Proof.
  unfold hasJob. intros Hne Hi. apply String.eqb_eq in Hi.
  apply String.eqb_neq. congruence.
Qed.

Lemma hasToken_other u v r : v <> u -> hasToken u r = true -> hasToken v r = false.
Proof.
  unfold hasToken. intros Hne Hu. apply String.eqb_eq in Hu.
  apply String.eqb_neq. congruence.
Qed.

(** X1. Inserting a job under an id the ledger does not hold succeeds; the
    job is then found with the given owner, url and status, both timestamps
    at the time of insertion and neither [video_id] nor [error]; every other
    id is looked up as before and the two OAuth tables are untouched. *)
Theorem createJob_then_getJob :
  forall (job : NewJob) (now : Z) (d : Db),
    getJob (nj_id job) d = None ->
    fst (createJob job now d) = Returned tt
    /\ getJob (nj_id job) (snd (createJob job now d)) = Some (insertedJob job now)
    /\ (forall j, j <> nj_id job ->
                  getJob j (snd (createJob job now d)) = getJob j d)
    /\ oauth_tokens (snd (createJob job now d)) = oauth_tokens d
    /\ oauth_states (snd (createJob job now d)) = oauth_states d.
Proof.
  intros job now d Hnone. unfold createJob.
  rewrite (proj2 (existsb_false_find _ _) Hnone). simpl.
  split; [reflexivity|]. split.
  - unfold getJob. simpl. apply find_app_fresh; [exact Hnone|].
    unfold hasJob. simpl. apply String.eqb_refl.
  - split; [|split; reflexivity].
    intros j Hj. unfold getJob. simpl. apply find_app_miss.
    unfold hasJob. simpl. now apply String.eqb_neq.
Qed.

Lemma createJob_then_getJob_witness :
  getJob "j2" (snd (createJob {| nj_id := "j2"; nj_telegram_user_id := "u9";
                                 nj_source_url := "https://video/y";
                                 nj_status := "queued" |}
                              11 (set_jobs [storedJob] emptyDb)))
  = Some {| job_id := "j2"; job_telegram_user_id := "u9";
            source_url := "https://video/y"; status := "queued";
            created_at := 11; updated_at := 11; video_id := None; error := None |}.
Proof.
  exact (proj1 (proj2 (createJob_then_getJob
                         {| nj_id := "j2"; nj_telegram_user_id := "u9";
                            nj_source_url := "https://video/y";
                            nj_status := "queued" |}
                         11 (set_jobs [storedJob] emptyDb) eq_refl))).
Defined.

Lemma createJob_existing job now d r :
  getJob (nj_id job) d = Some r ->
  createJob job now d = (Threw (uniqueViolation "jobs.id"), d).
Proof.
  intros Hr. unfold createJob.
  destruct (existsb (hasJob (nj_id job)) (jobs d)) eqn:Hex; [reflexivity|].
  apply existsb_false_find in Hex. unfold getJob in Hr. congruence.
Qed.

(** X2. Inserting a job under an id the ledger already holds throws the
    unique-constraint error and leaves the database as it was: the stored
    job is not overwritten and is still what [getJob] returns. *)
Theorem createJob_duplicate_id_rejected :
  forall (job : NewJob) (now : Z) (d : Db) (r : JobRow),
    getJob (nj_id job) d = Some r ->
    createJob job now d = (Threw (uniqueViolation "jobs.id"), d)
    /\ getJob (nj_id job) (snd (createJob job now d)) = Some r.
Proof.
  intros job now d r Hr. rewrite (createJob_existing job now d r Hr). now split.
Qed.

Lemma createJob_duplicate_id_rejected_witness :
  createJob {| nj_id := "j1"; nj_telegram_user_id := "u9";
               nj_source_url := "https://video/y"; nj_status := "queued" |}
            11 (set_jobs [storedJob] emptyDb)
  = (Threw (ErrorObj "SqliteError" "UNIQUE constraint failed: jobs.id"),
     set_jobs [storedJob] emptyDb).
Proof.
  exact (proj1 (createJob_duplicate_id_rejected
                  {| nj_id := "j1"; nj_telegram_user_id := "u9";
                     nj_source_url := "https://video/y"; nj_status := "queued" |}
                  11 (set_jobs [storedJob] emptyDb) storedJob eq_refl)).
Defined.

Lemma uniqueJobIds_createJob job now d :
  uniqueJobIds d -> uniqueJobIds (snd (createJob job now d)).
Proof.
  intros Hd i. unfold createJob.
  destruct (existsb (hasJob (nj_id job)) (jobs d)) eqn:Hex; simpl; [apply Hd|].
  rewrite filter_app_one. fold (insertedJob job now).
  destruct (hasJob i (insertedJob job now)) eqn:Hi;
    [|rewrite Nat.add_0_r; apply Hd].
  unfold hasJob in Hi. simpl in Hi. apply String.eqb_eq in Hi. subst i.
  apply existsb_false_find in Hex.
  now rewrite (filter_none_of_find _ _ Hex).
Qed.

Lemma uniqueJobIds_updateJobStatus i st extra now d :
  uniqueJobIds d -> uniqueJobIds (updateJobStatus i st extra now d).
Proof.
  intros Hd j. unfold updateJobStatus. simpl.
  rewrite (filter_update_length (hasJob j) (hasJob i) (jobUpdate st now extra)).
  - apply Hd.
  - intros a. apply hasJob_jobUpdate.
Qed.

(** X3. The primary key of [jobs] is kept: if no id occurs twice, none does
    after [createJob] (whether it inserts or throws) nor after
    [updateJobStatus]. *)
Theorem job_ids_stay_unique :
  forall (d : Db),
    uniqueJobIds d ->
    (forall job now, uniqueJobIds (snd (createJob job now d)))
    /\ (forall i st extra now, uniqueJobIds (updateJobStatus i st extra now d)).
Proof.
  intros d Hd. split.
  - intros job now. now apply uniqueJobIds_createJob.
  - intros i st extra now. now apply uniqueJobIds_updateJobStatus.
Qed.

Lemma job_ids_stay_unique_witness :
  uniqueJobIds (updateJobStatus "j1" "failed" noExtra 3
                  (snd (createJob {| nj_id := "j1"; nj_telegram_user_id := "u1";
                                     nj_source_url := "x"; nj_status := "queued" |}
                                  2 emptyDb))).
Proof.
  assert (H0 : uniqueJobIds emptyDb) by (intros i; simpl; lia).
  apply (proj2 (job_ids_stay_unique _
                  (proj1 (job_ids_stay_unique emptyDb H0) _ _))).
Defined.

Lemma getJob_updateJobStatus_other i j st extra now d :
  j <> i -> getJob j (updateJobStatus i st extra now d) = getJob j d.
Proof.
  intros Hne. unfold getJob, updateJobStatus. simpl.
  apply (find_update_other (hasJob j) (hasJob i) (jobUpdate st now extra)).
  - intros a. apply hasJob_jobUpdate.
  - intros a Ha. apply (hasJob_other j i a); [congruence | exact Ha].
Qed.

(** X4. [updateJobStatus] touches one job only: a job with another id is
    read back exactly as before, and the two OAuth tables are untouched. *)
Theorem updateJobStatus_other_jobs_unchanged :
  forall (i j st : string) (extra : Extra) (now : Z) (d : Db),
    j <> i ->
    getJob j (updateJobStatus i st extra now d) = getJob j d
    /\ oauth_tokens (updateJobStatus i st extra now d) = oauth_tokens d
    /\ oauth_states (updateJobStatus i st extra now d) = oauth_states d.
Proof.
  intros i j st extra now d Hne. split; [|split; reflexivity].
  now apply getJob_updateJobStatus_other.
Qed.

Lemma updateJobStatus_other_jobs_unchanged_witness :
  getJob "j1" (updateJobStatus "j2" "failed"
                 {| x_video_id := Some "v"; x_error := Some "e" |} 12
                 (set_jobs [storedJob] emptyDb))
  = Some storedJob.
Proof.
  refine (eq_trans
            (proj1 (updateJobStatus_other_jobs_unchanged
                      "j2" "j1" "failed"
                      {| x_video_id := Some "v"; x_error := Some "e" |} 12
                      (set_jobs [storedJob] emptyDb) _)) eq_refl).
  discriminate.
Defined.

(** ** Credential store: insertion, frames, removal *)

Lemma COALESCE_same {A : Type} (a : option A) : COALESCE a a = a.
Proof. now destruct a. Qed.

Lemma tokenConflictUpdate_twice excluded r :
  tokenConflictUpdate excluded (tokenConflictUpdate excluded r)
  = tokenConflictUpdate excluded r.
Proof.
  unfold tokenConflictUpdate. simpl. f_equal.
  now destruct (refresh_token excluded).
Qed.

(** X5. Storing the same token set twice is the same as storing it once. *)
Theorem upsertToken_idempotent :
  forall (u : string) (token : Credentials) (d : Db),
    upsertToken u token (upsertToken u token d) = upsertToken u token d.
Proof.
  intros u token d. unfold upsertToken at 2 3.
  destruct (existsb (hasToken u) (oauth_tokens d)) eqn:Hex.
  - unfold upsertToken. simpl.
    assert (Hex' : existsb (hasToken u)
                     (map (fun r => if hasToken u r
                                    then tokenConflictUpdate (tokenParams u token) r
                                    else r) (oauth_tokens d)) = true).
    { rewrite existsb_exists in *. destruct Hex as (r & Hin & Hr).
      exists (tokenConflictUpdate (tokenParams u token) r). split; [|exact Hr].
      apply in_map_iff. exists r. now rewrite Hr. }
    rewrite Hex'. unfold set_tokens. simpl. f_equal.
    rewrite map_map. apply map_ext. intros r.
    destruct (hasToken u r) eqn:Hr.
    + rewrite hasToken_conflictUpdate, Hr. apply tokenConflictUpdate_twice.
    + now rewrite Hr.
  - unfold upsertToken. simpl.
    assert (Hex' : existsb (hasToken u) (oauth_tokens d ++ [tokenParams u token]) = true).
    { rewrite existsb_app. simpl. unfold hasToken at 2. simpl.
      rewrite String.eqb_refl. now rewrite orb_true_r. }
    rewrite Hex'. unfold set_tokens. simpl. f_equal.
    rewrite map_app. simpl. f_equal.
    + apply existsb_false_find in Hex. now apply update_absent.
    + unfold hasToken at 1. simpl. rewrite String.eqb_refl.
      unfold tokenConflictUpdate. simpl. now rewrite COALESCE_same.
Qed.

(** X6. An upsert for one owner leaves the record of every other owner, the
    pending states and the jobs as they were. *)
Theorem upsertToken_other_owners_unchanged :
  forall (u v : string) (token : Credentials) (d : Db),
    v <> u ->
    getToken v (upsertToken u token d) = getToken v d
    /\ oauth_states (upsertToken u token d) = oauth_states d
    /\ jobs (upsertToken u token d) = jobs d.
Proof.
  intros u v token d Hne. unfold upsertToken, getToken.
  destruct (existsb (hasToken u) (oauth_tokens d)); simpl;
    (split; [|split; reflexivity]).
  - apply (find_update_other (hasToken v) (hasToken u)).
    + intros a. apply hasToken_conflictUpdate.
    + intros a Ha. apply (hasToken_other v u a); [congruence | exact Ha].
  - apply find_app_miss. unfold hasToken. simpl. now apply String.eqb_neq.
Qed.

Lemma upsertToken_other_owners_unchanged_witness :
  getToken "u1" (upsertToken "u2" sampleToken linkedDb) = getToken "u1" linkedDb.
Proof.
  refine (proj1 (upsertToken_other_owners_unchanged "u2" "u1" sampleToken linkedDb _)).
  discriminate.
Defined.

(** X7. Whatever token set is stored, the record found afterwards has a
    non-empty [token_type]: the one supplied, or [Bearer] when it is missing
    or empty. *)
Theorem upsertToken_token_type_never_null :
  forall (u : string) (token : Credentials) (d : Db),
    exists r t,
      getToken u (upsertToken u token d) = Some r
      /\ token_type r = Some t
      /\ t <> ""
      /\ (orNull (c_token_type token) = None -> t = "Bearer")
      /\ (forall t', orNull (c_token_type token) = Some t' -> t = t').
Proof.
  intros u token d. rewrite getToken_upsertToken.
  destruct (orNull (c_token_type token)) as [t|] eqn:Ht.
  - eexists; exists t. split; [reflexivity|].
    split; [destruct (getToken u d); simpl; now rewrite Ht|].
    split.
    + unfold orNull in Ht. destruct (c_token_type token) as [s|]; [|discriminate].
      destruct (String.eqb_spec s ""); [discriminate|]. congruence.
    + split; [discriminate | congruence].
  - eexists; exists "Bearer". split; [reflexivity|].
    split; [destruct (getToken u d); simpl; now rewrite Ht|].
    split; [discriminate|]. split; [reflexivity | discriminate].
Qed.

Lemma upsertToken_token_type_never_null_witness :
  exists r, getToken "u1" linkedDb = Some r /\ token_type r = Some "Bearer".
Proof.
  destruct (upsertToken_token_type_never_null "u1" sampleToken emptyDb)
    as (r & t & Hr & Ht & _ & Hb & _).
  exists r. split; [exact Hr|]. rewrite Ht, (Hb eq_refl). reflexivity.
Defined.

(** X8. [deleteToken] removes the owner's record, so that no authorised
    client can be built for the owner any more; the records of the other
    owners, the pending states and the jobs stay, at most one record per
    owner remains, and deleting again changes nothing. *)
Theorem deleteToken_unlinks_the_owner :
  forall (E : Env) (u base : string) (d : Db),
    getToken u (deleteToken u d) = None
    /\ getAuthorizedClient E u base (deleteToken u d) = None
    /\ (forall v, v <> u -> getToken v (deleteToken u d) = getToken v d)
    /\ oauth_states (deleteToken u d) = oauth_states d
    /\ jobs (deleteToken u d) = jobs d
    /\ (oneRecordPerOwner d -> oneRecordPerOwner (deleteToken u d))
    /\ deleteToken u (deleteToken u d) = deleteToken u d.
Proof.
  intros E u base d.
  assert (Hgone : getToken u (deleteToken u d) = None).
  { unfold getToken, deleteToken. simpl. apply find_deleted. }
  split; [exact Hgone|].
  split; [unfold getAuthorizedClient; now rewrite Hgone|].
  split.
  { intros v Hne. unfold getToken, deleteToken. simpl.
    apply find_delete_other. intros a Ha.
    apply (hasToken_other v u a); [congruence | exact Ha]. }
  split; [reflexivity|]. split; [reflexivity|].
  split.
  { intros Hd v. unfold recordsOf, deleteToken. simpl.
    eapply Nat.le_trans; [apply filter_delete_length | apply Hd]. }
  unfold deleteToken. simpl. unfold set_tokens. simpl. f_equal.
  apply filter_twice.
Qed.

Lemma deleteToken_unlinks_the_owner_witness :
  oneRecordPerOwner (deleteToken "u1" linkedDb)
  /\ getAuthorizedClient sampleEnv "u1" "http://localhost:8080"
                         (deleteToken "u1" linkedDb) = None.
Proof.
  destruct (deleteToken_unlinks_the_owner sampleEnv "u1" "http://localhost:8080" linkedDb)
    as (_ & Hc & _ & _ & _ & Hone & _).
  split; [apply Hone | exact Hc].
  apply upsertToken_oneRecordPerOwner. intros v. simpl. lia.
Defined.

(** X9. The refresh token is sticky only as long as the record exists: after
    [deleteToken], an upsert that carries no refresh token stores none. *)
Theorem refresh_token_not_kept_across_deleteToken :
  forall (u : string) (token : Credentials) (d : Db),
    orNull (c_refresh_token token) = None ->
    exists r,
      getToken u (upsertToken u token (deleteToken u d)) = Some r
      /\ refresh_token r = None
      /\ access_token r = c_access_token token.
Proof.
  intros u token d Hnone. rewrite getToken_upsertToken.
  assert (Hgone : getToken u (deleteToken u d) = None).
  { unfold getToken, deleteToken. simpl. apply find_deleted. }
  rewrite Hgone. eexists. split; [reflexivity|]. simpl. now rewrite Hnone.
Qed.

Lemma refresh_token_not_kept_across_deleteToken_witness :
  exists r,
    getToken "u1" (upsertToken "u1"
                     {| c_access_token := Some "at2"; c_refresh_token := None;
                        c_scope := None; c_token_type := None;
                        c_expiry_date := None |}
                     (deleteToken "u1" linkedDb)) = Some r
    /\ refresh_token r = None
    /\ access_token r = Some "at2".
Proof.
  exact (refresh_token_not_kept_across_deleteToken "u1"
           {| c_access_token := Some "at2"; c_refresh_token := None;
              c_scope := None; c_token_type := None; c_expiry_date := None |}
           linkedDb eq_refl).
Defined.

(** ** Pending-authorisation ledger: collisions and unknown tokens *)

(** X10. A state token that is already pending cannot be created again:
    [createState] throws the unique-constraint error, the database is left
    as it was, and the pairing of the token with its first owner is still
    what [consumeState] returns.  In every case no token occurs twice
    after [createState] if none did before. *)
Theorem createState_collision_rejected :
  forall (u s : string) (now : Z) (d : Db),
    (forall row,
        find (hasState s) (oauth_states d) = Some row ->
        createState u s now d = (Threw (uniqueViolation "oauth_states.state"), d)
        /\ fst (consumeState s (snd (createState u s now d))) = Some row)
    /\ (uniqueStates d -> uniqueStates (snd (createState u s now d))).
Proof.
  intros u s now d. split.
  - intros row Hrow. unfold createState.
    destruct (existsb (hasState s) (oauth_states d)) eqn:Hex.
    + split; [reflexivity|]. simpl. unfold consumeState. now rewrite Hrow.
    + apply existsb_false_find in Hex. congruence.
  - intros Hd t. unfold createState.
    destruct (existsb (hasState s) (oauth_states d)) eqn:Hex; simpl; [apply Hd|].
    rewrite filter_app_one. unfold hasState at 2. simpl.
    destruct (String.eqb_spec s t) as [<- | Hne]; [|rewrite Nat.add_0_r; apply Hd].
    apply existsb_false_find in Hex.
    now rewrite (filter_none_of_find _ _ Hex).
Qed.

Lemma createState_collision_rejected_witness :
  fst (consumeState "a3f0"
         (snd (createState "mallory" "a3f0" 9
                 (snd (createState "u1" "a3f0" 7 emptyDb)))))
  = Some {| state := "a3f0"; st_telegram_user_id := "u1"; st_created_at := 7 |}.
Proof.
  exact (proj2 (proj1 (createState_collision_rejected "mallory" "a3f0" 9
                         (snd (createState "u1" "a3f0" 7 emptyDb)))
                      _ eq_refl)).
Defined.

(** X11. Consuming a token that is not pending returns [null] and leaves
    the database as it was; consuming any token leaves the credentials and
    the jobs alone and never adds a pending state. *)
Theorem consumeState_unknown_token :
  forall (s : string) (d : Db),
    (find (hasState s) (oauth_states d) = None -> consumeState s d = (None, d))
    /\ oauth_tokens (snd (consumeState s d)) = oauth_tokens d
    /\ jobs (snd (consumeState s d)) = jobs d
    /\ (length (oauth_states (snd (consumeState s d))) <= length (oauth_states d))%nat.
Proof.
  intros s d. split.
  - intros Hnone. unfold consumeState. now rewrite Hnone.
  - unfold consumeState.
    destruct (find (hasState s) (oauth_states d)); simpl;
      repeat split; try reflexivity; try lia.
    apply filter_length_le.
Qed.

Lemma consumeState_unknown_token_witness :
  consumeState "ffff" (snd (createState "u1" "a3f0" 7 emptyDb))
  = (None, snd (createState "u1" "a3f0" 7 emptyDb)).
Proof.
  exact (proj1 (consumeState_unknown_token "ffff"
                  (snd (createState "u1" "a3f0" 7 emptyDb))) eq_refl).
Defined.

(** ** The linking flow *)

Lemma createAuthUrl_Returned G E base u now d a d1 :
  createAuthUrl G E base u now d = (Returned a, d1) ->
  find (hasState (randomBytesHex G)) (oauth_states d) = None
  /\ au_state a = randomBytesHex G
  /\ au_redirectUri a = buildOAuthRedirectUrl base
  /\ d1 = set_states (oauth_states d ++
                      [{| state := randomBytesHex G; st_telegram_user_id := u;
                          st_created_at := now |}]) d.
Proof.
  unfold createAuthUrl, createState.
  destruct (existsb (hasState (randomBytesHex G)) (oauth_states d)) eqn:Hex;
    [discriminate|].
  intros H. injection H as <- <-. simpl.
  apply existsb_false_find in Hex. auto.
Qed.

Lemma consumeState_created s u now d :
  find (hasState s) (oauth_states d) = None ->
  consumeState s (set_states (oauth_states d ++
                              [{| state := s; st_telegram_user_id := u;
                                  st_created_at := now |}]) d)
  = (Some {| state := s; st_telegram_user_id := u; st_created_at := now |}, d).
Proof.
  intros Hnone. unfold consumeState. simpl.
  rewrite (find_app_fresh (hasState s) _ _ Hnone)
    by (unfold hasState; simpl; apply String.eqb_refl).
  f_equal. unfold set_states. simpl. destruct d as [t s0 j]. simpl in *. f_equal.
  rewrite filter_app. simpl. unfold hasState at 2. simpl.
  rewrite String.eqb_refl. simpl. rewrite app_nil_r.
  clear -Hnone. induction s0 as [|a l IH]; simpl in *; [reflexivity|].
  destruct (hasState s a); [discriminate|]. simpl. now rewrite IH.
Qed.

(** X12. The linking flow, end to end.  When [createAuthUrl] returns for an
    owner and the authorisation server exchanges the code for a token set,
    [handleOAuthCallback] called with the state of that URL returns the
    owner, stores the token set for the owner (merged with an older record
    if there is one), so that an authorised client carrying the new access
    token can be built, and uses the state up: the same callback a second
    time is refused as [Invalid or expired state] without reaching the
    authorisation server. *)
Theorem linking_flow_links_the_owner :
  forall (G : Google) (E : Env) (base u code : string) (now : Z)
         (tokens : Credentials) (d d1 : Db) (a : AuthUrl),
    createAuthUrl G E base u now d = (Returned a, d1) ->
    getTokenForCode G (newOAuth2 E (buildOAuthRedirectUrl base)) code
    = Returned (Some tokens) ->
    let r := handleOAuthCallback G E base code (au_state a) d1 in
    let again := handleOAuthCallback G E base code (au_state a) (cb_db r) in
    cb_outcome r = Returned u
    /\ cb_exchanged r = [code]
    /\ getToken u (cb_db r)
       = Some match getToken u d with
              | Some old => tokenConflictUpdate (tokenParams u tokens) old
              | None => tokenParams u tokens
              end
    /\ (exists c, getAuthorizedClient E u base (cb_db r) = Some c
                  /\ c_access_token (credentials c) = c_access_token tokens
                  /\ redirect_uri c = au_redirectUri a)
    /\ oauth_states (cb_db r) = oauth_states d
    /\ cb_outcome again = Threw (ErrorObj "Error" "Invalid or expired state")
    /\ cb_exchanged again = []
    /\ cb_db again = cb_db r.
Proof.
  intros G E base u code now tokens d d1 a Hcreate Hex r again.
  destruct (createAuthUrl_Returned _ _ _ _ _ _ _ _ Hcreate)
    as (Hfresh & Hst & Hredir & ->).
  assert (Hr : r = {| cb_outcome := Returned u;
                      cb_db := upsertToken u tokens d;
                      cb_exchanged := [code] |}).
  { subst r. unfold handleOAuthCallback. rewrite Hst.
    rewrite (consumeState_created _ u now d Hfresh). simpl. now rewrite Hex. }
  assert (Hstates : oauth_states (upsertToken u tokens d) = oauth_states d).
  { unfold upsertToken. now destruct (existsb (hasToken u) (oauth_tokens d)). }
  subst again. rewrite Hr. simpl.
  split; [reflexivity|]. split; [reflexivity|].
  split; [apply getToken_upsertToken|].
  split.
  { unfold getAuthorizedClient. rewrite getToken_upsertToken.
    eexists. split; [reflexivity|]. simpl.
    split; [now destruct (getToken u d) | now rewrite Hredir]. }
  split; [exact Hstates|].
  unfold handleOAuthCallback, consumeState. rewrite Hst, Hstates, Hfresh. simpl.
  auto.
Qed.

Lemma linking_flow_links_the_owner_witness :
  let d1 := snd (createAuthUrl sampleGoogle sampleEnv "https://bot.example" "u7" 5 emptyDb) in
  let r := handleOAuthCallback sampleGoogle sampleEnv "https://bot.example" "good"
             "00112233445566778899aabbccddeeff" d1 in
  cb_outcome r = Returned "u7"
  /\ cb_outcome (handleOAuthCallback sampleGoogle sampleEnv "https://bot.example" "good"
                   "00112233445566778899aabbccddeeff" (cb_db r))
     = Threw (ErrorObj "Error" "Invalid or expired state").
Proof.
  intros d1 r.
  destruct (linking_flow_links_the_owner sampleGoogle sampleEnv "https://bot.example"
              "u7" "good" 5 sampleToken emptyDb d1 _ eq_refl eq_refl)
    as (Hout & _ & _ & _ & _ & Hagain & _).
  split; [exact Hout | exact Hagain].
Defined.

(** X13. A callback whose state exists but whose code the authorisation
    server refuses (the exchange rejects, or resolves without tokens) fails
    with that error or with [No tokens received]; no credentials are
    written, yet the state is used up, so that the owner has to start the
    flow again: a second callback with the same state is refused even with a
    code that would be accepted. *)
Theorem failed_exchange_uses_the_state_up :
  forall (G : Google) (E : Env) (base code code' st : string) (d : Db) (row : StateRow),
    find (hasState st) (oauth_states d) = Some row ->
    (forall tokens,
        getTokenForCode G (newOAuth2 E (buildOAuthRedirectUrl base)) code
        <> Returned (Some tokens)) ->
    let r := handleOAuthCallback G E base code st d in
    (exists e,
        cb_outcome r = Threw e
        /\ (getTokenForCode G (newOAuth2 E (buildOAuthRedirectUrl base)) code = Threw e
            \/ e = ErrorObj "Error" "No tokens received"))
    /\ cb_exchanged r = [code]
    /\ oauth_tokens (cb_db r) = oauth_tokens d
    /\ find (hasState st) (oauth_states (cb_db r)) = None
    /\ cb_outcome (handleOAuthCallback G E base code' st (cb_db r))
       = Threw (ErrorObj "Error" "Invalid or expired state").
Proof.
  intros G E base code code' st d row Hrow Hbad r.
  set (d1 := set_states (filter (fun x => negb (hasState st x)) (oauth_states d)) d).
  assert (Hc : consumeState st d = (Some row, d1)).
  { unfold consumeState. now rewrite Hrow. }
  assert (Hagain : cb_outcome (handleOAuthCallback G E base code' st d1)
                   = Threw (ErrorObj "Error" "Invalid or expired state")).
  { unfold handleOAuthCallback, consumeState, d1. simpl.
    now rewrite (find_deleted (hasState st)). }
  assert (Hgone : find (hasState st) (oauth_states d1) = None)
    by apply find_deleted.
  subst r.
  destruct (getTokenForCode G (newOAuth2 E (buildOAuthRedirectUrl base)) code)
    as [[tokens|] | e] eqn:Hx.
  - exfalso. now apply (Hbad tokens).
  - assert (Hr : handleOAuthCallback G E base code st d
                 = {| cb_outcome := Threw (ErrorObj "Error" "No tokens received");
                      cb_db := d1; cb_exchanged := [code] |})
      by (unfold handleOAuthCallback; now rewrite Hc, Hx).
    rewrite Hr. simpl.
    split; [eexists; split; [reflexivity | now right]|]. auto.
  - assert (Hr : handleOAuthCallback G E base code st d
                 = {| cb_outcome := Threw e; cb_db := d1; cb_exchanged := [code] |})
      by (unfold handleOAuthCallback; now rewrite Hc, Hx).
    rewrite Hr. simpl.
    split; [eexists; split; [reflexivity | now left]|]. auto.
Qed.

Lemma failed_exchange_uses_the_state_up_witness :
  let d1 := snd (createAuthUrl sampleGoogle sampleEnv "https://bot.example" "u7" 5 emptyDb) in
  let r := handleOAuthCallback sampleGoogle sampleEnv "https://bot.example" "stale"
             "00112233445566778899aabbccddeeff" d1 in
  oauth_tokens (cb_db r) = []
  /\ cb_outcome (handleOAuthCallback sampleGoogle sampleEnv "https://bot.example" "good"
                   "00112233445566778899aabbccddeeff" (cb_db r))
     = Threw (ErrorObj "Error" "Invalid or expired state").
Proof.
  intros d1 r.
  assert (Hbad : forall tokens,
             getTokenForCode sampleGoogle
               (newOAuth2 sampleEnv (buildOAuthRedirectUrl "https://bot.example")) "stale"
             <> Returned (Some tokens)) by (intros tokens; discriminate).
  destruct (failed_exchange_uses_the_state_up sampleGoogle sampleEnv
              "https://bot.example" "stale" "good"
              "00112233445566778899aabbccddeeff" d1 _ eq_refl Hbad)
    as (_ & _ & Htok & _ & Hagain).
  split; [exact Htok | exact Hagain].
Defined.

(** ** The routes *)

(** X14. [GET /oauth2/callback] with a state that is not pending (unknown,
    already used, or missing from the query) answers 400 with
    [Invalid or expired state], never contacts the authorisation server and
    leaves the database as it was. *)
Theorem callbackRoute_rejects_unknown_state :
  forall (P : string) (G : Google) (E : Env) (req : Request) (d : Db),
    find (hasState (orElse (query_state req) "")) (oauth_states d) = None ->
    callbackRoute P G E req d
    = ({| statusCode := 400; body := SendText "Invalid or expired state" |}, d, []).
Proof.
  intros P G E req d Hnone.
  unfold callbackRoute, handleOAuthCallback, consumeState. now rewrite Hnone.
Qed.

Lemma callbackRoute_rejects_unknown_state_witness :
  callbackRoute "" sampleGoogle sampleEnv bareRequest linkedDb
  = ({| statusCode := 400; body := SendText "Invalid or expired state" |}, linkedDb, []).
Proof.
  exact (callbackRoute_rejects_unknown_state "" sampleGoogle sampleEnv bareRequest
           linkedDb eq_refl).
Defined.

(** X15. [GET /oauth2/authorize] answers in one of three ways: 400 when the
    query has no (or an empty) [user_id], with the database untouched; a
    thrown unique-constraint error when the drawn state is already pending,
    with the database untouched; or a 302 redirect to the URL that the
    client library builds for a client whose redirect URI is the callback
    under the base URL of the request, with offline access, the two
    YouTube scopes, the consent prompt and the drawn state, after which
    that state is pending for exactly the [user_id] of the query. *)
Theorem authorizeRoute_outcomes :
  forall (P : string) (G : Google) (E : Env) (req : Request) (now : Z) (d : Db),
    let u := orElse (query_user_id req) "" in
    let r := authorizeRoute P G E req now d in
    (u = ""
     /\ r = (Returned {| statusCode := 400; body := SendText "Missing user_id" |}, d))
    \/ (u <> ""
        /\ find (hasState (randomBytesHex G)) (oauth_states d) <> None
        /\ r = (Threw (uniqueViolation "oauth_states.state"), d))
    \/ (u <> ""
        /\ find (hasState (randomBytesHex G)) (oauth_states d) = None
        /\ fst r
           = Returned
               {| statusCode := 302;
                  body := Redirect
                            (generateAuthUrl G
                               (newOAuth2 E (buildOAuthRedirectUrl (getBaseUrl P E req)))
                               {| access_type := "offline";
                                  opt_scope :=
                                    ["https://www.googleapis.com/auth/youtube.upload";
                                     "https://www.googleapis.com/auth/youtube.force-ssl"];
                                  prompt := "consent";
                                  opt_state := randomBytesHex G |}) |}
        /\ consumeState (randomBytesHex G) (snd r)
           = (Some {| state := randomBytesHex G; st_telegram_user_id := u;
                      st_created_at := now |}, d)).
Proof.
  intros P G E req now d u r. subst r. unfold authorizeRoute. fold u.
  destruct (String.eqb_spec u "") as [Hu | Hu]; [left; auto|].
  right. unfold createAuthUrl, createState.
  destruct (existsb (hasState (randomBytesHex G)) (oauth_states d)) eqn:Hex.
  - left. split; [exact Hu|]. split; [|reflexivity].
    destruct (existsb_true_find _ _ Hex) as [row Hrow]. congruence.
  - right. apply existsb_false_find in Hex. simpl.
    split; [exact Hu|]. split; [exact Hex|].
    split; [reflexivity|].
    now apply consumeState_created.
Qed.

(** ** Base URLs *)





(** ** Subtitles *)

Lemma padStart0_two_digits (n : Z) :
  0 <= n < 100 -> padStart0 2 (decimal n) = twoDigits n.
Proof.
  intros Hn.
  assert (Hall : forallb (fun m => String.eqb (padStart0 2 (decimal (Z.of_nat m)))
                                              (twoDigits (Z.of_nat m)))
                         (seq 0 100) = true) by (vm_compute; reflexivity).
  rewrite forallb_forall in Hall.
  specialize (Hall (Z.to_nat n)). rewrite Z2Nat.id in Hall by lia.
  apply String.eqb_eq, Hall, in_seq. lia.
Qed.

Lemma padStart0_three_digits (n : Z) :
  0 <= n < 1000 -> padStart0 3 (decimal n) = threeDigits n.
Proof.
  intros Hn.
  assert (Hall : forallb (fun m => String.eqb (padStart0 3 (decimal (Z.of_nat m)))
                                              (threeDigits (Z.of_nat m)))
                         (seq 0 1000) = true) by (vm_compute; reflexivity).
  rewrite forallb_forall in Hall.
  specialize (Hall (Z.to_nat n)). rewrite Z2Nat.id in Hall by lia.
  apply String.eqb_eq, Hall, in_seq. lia.
Qed.

Lemma digit_inj (a b : Z) : 0 <= a < 10 -> 0 <= b < 10 -> digit a = digit b -> a = b.
Proof.
  intros Ha Hb H. unfold digit in H.
  apply (f_equal nat_of_ascii) in H.
  rewrite !nat_ascii_embedding in H by lia. lia.
Qed.

Lemma toTimestamp_digits (k : Z) :
  Z.max 0 k < 360000000 ->
  toTimestamp k
  = twoDigits (Z.max 0 k / 3600000) ++ ":"
    ++ twoDigits (Z.max 0 k / 60000 mod 60) ++ ":"
    ++ twoDigits (Z.max 0 k / 1000 mod 60) ++ ","
    ++ threeDigits (Z.max 0 k mod 1000).
Proof.
  intros Hms. set (ms := Z.max 0 k) in *.
  assert (H0 : 0 <= ms) by (unfold ms; lia).
  assert (Hmm : (ms mod 3600000) / 60000 = ms / 60000 mod 60)
    by (Z.div_mod_to_equations; lia).
  assert (Hss : (ms mod 60000) / 1000 = ms / 1000 mod 60)
    by (Z.div_mod_to_equations; lia).
  unfold toTimestamp. fold ms. rewrite Hmm, Hss.
  rewrite !padStart0_two_digits, padStart0_three_digits;
    try reflexivity; Z.div_mod_to_equations; lia.
Qed.

(** X17. For an instant below one hundred hours (negative instants count as
    zero), [toTimestamp] renders exactly twelve characters [HH:MM:SS,mmm]:
    hours, minutes of the hour and seconds of the minute on two digits,
    milliseconds on three. *)
Theorem toTimestamp_fixed_width :
  forall (k : Z),
    let ms := Z.max 0 k in
    ms < 360000000 ->
    toTimestamp k
    = twoDigits (ms / 3600000) ++ ":" ++ twoDigits (ms / 60000 mod 60) ++ ":"
      ++ twoDigits (ms / 1000 mod 60) ++ "," ++ threeDigits (ms mod 1000)
    /\ String.length (toTimestamp k) = 12%nat.
Proof.
  intros k ms Hms. pose proof (toTimestamp_digits k Hms) as E.
  split; [exact E | now rewrite E].
Qed.

Lemma toTimestamp_fixed_width_witness :
  toTimestamp 3723456 = "01:02:03,456" /\ String.length (toTimestamp (-40)) = 12%nat.
Proof.
  split.
  - refine (eq_trans (proj1 (toTimestamp_fixed_width 3723456 _)) eq_refl).
    reflexivity.
  - refine (proj2 (toTimestamp_fixed_width (-40) _)). reflexivity.
Defined.

(** X18. [toTimestamp] loses nothing of the millisecond count it computes,
    [Math.max(0, Math.floor(seconds * 1000))]: below one hundred hours, two
    calls whose counts differ render to different timestamps.  (Two instants
    may share a count: the floor is part of the count.) *)
Theorem toTimestamp_distinct_milliseconds :
  forall (a b : Z),
    Z.max 0 a < 360000000 ->
    Z.max 0 b < 360000000 ->
    Z.max 0 a <> Z.max 0 b ->
    toTimestamp a <> toTimestamp b.
Proof.
  intros a b Ha Hb Hne H. apply Hne.
  rewrite (toTimestamp_digits a Ha), (toTimestamp_digits b Hb) in H.
  set (x := Z.max 0 a) in *. set (y := Z.max 0 b) in *.
  assert (Hx : 0 <= x) by (unfold x; lia).
  assert (Hy : 0 <= y) by (unfold y; lia).
  unfold twoDigits, threeDigits in H. simpl in H.
  injection H as H1 H2 H3 H4 H5 H6 H7 H8 H9.
  apply digit_inj in H1, H2, H3, H4, H5, H6, H7, H8, H9;
    try (Z.div_mod_to_equations; lia).
Qed.

Lemma toTimestamp_distinct_milliseconds_witness :
  toTimestamp 3599999 <> toTimestamp 3600000.
Proof.
  apply (toTimestamp_distinct_milliseconds 3599999 3600000); [reflexivity | reflexivity |].
  discriminate.
Defined.

Section SrtProperties.

Variable trim : string -> string.

Lemma pushSegment_kept idx lines seg :
  pushSegment trim (idx, lines) seg
  = if kept trim seg
    then (idx + 1, (lines ++ linesOf trim idx seg)%list)
    else (idx, lines).
Proof.
  unfold pushSegment, kept, linesOf.
  destruct (seg_start seg), (seg_end seg); try reflexivity.
  now destruct (cueText trim seg =? "")%string.
Qed.

(** The loop of [segmentsToSrt] from any counter and any lines so far. *)
Lemma fold_pushSegment segs : forall idx lines,
  fold_left (pushSegment trim) segs (idx, lines)
  = (idx + Z.of_nat (length (filter (kept trim) segs)),
     (lines ++ numbered trim idx (filter (kept trim) segs))%list).
Proof.
  induction segs as [|seg segs IH]; intros idx lines.
  - simpl. now rewrite Z.add_0_r, app_nil_r.
  - cbn [fold_left filter]. rewrite pushSegment_kept.
    destruct (kept trim seg); rewrite IH.
    + cbn [length numbered]. f_equal; [lia | now rewrite <- app_assoc].
    + reflexivity.
Qed.

Lemma numbered_length idx segs :
  (forall seg, In seg segs -> kept trim seg = true) ->
  length (numbered trim idx segs) = (4 * length segs)%nat.
Proof.
  revert idx. induction segs as [|seg segs IH]; intros idx Hk; [reflexivity|].
  simpl. rewrite length_app, IH by (intros s Hs; apply Hk; now right).
  assert (Hseg : kept trim seg = true) by (apply Hk; now left).
  unfold kept in Hseg. unfold linesOf.
  destruct (seg_start seg), (seg_end seg); try discriminate. simpl. lia.
Qed.

Lemma numbered_app idx a b :
  numbered trim idx (a ++ b)
  = (numbered trim idx a ++ numbered trim (idx + Z.of_nat (length a)) b)%list.
Proof.
  revert idx. induction a as [|seg a IH]; intros idx; simpl.
  - now rewrite Z.add_0_r.
  - rewrite IH, <- app_assoc. do 3 f_equal. lia.
Qed.

(** X19. [segmentsToSrt] numbers the cues it writes 1, 2, 3, ... without
    gaps: the lines are those of the segments that have a numeric start, a
    numeric end and a text that is not empty once trimmed, in order and
    numbered consecutively, four lines per such segment; the other segments
    leave no trace, and with no segment to keep the result is the empty
    string. *)
Theorem segmentsToSrt_numbers_kept_segments :
  forall (segments : list Segment),
    srtLines trim segments = numbered trim 1 (filter (kept trim) segments)
    /\ length (srtLines trim segments)
       = (4 * length (filter (kept trim) segments))%nat
    /\ srtLines trim segments = srtLines trim (filter (kept trim) segments)
    /\ (filter (kept trim) segments = [] -> segmentsToSrt trim segments = "").
Proof.
  intros segments.
  assert (H : srtLines trim segments = numbered trim 1 (filter (kept trim) segments)).
  { unfold srtLines. now rewrite fold_pushSegment. }
  split; [exact H|]. split; [|split].
  - rewrite H. apply numbered_length. intros seg Hseg.
    now apply filter_In in Hseg.
  - rewrite H. unfold srtLines. rewrite fold_pushSegment. simpl.
    now rewrite filter_twice.
  - intros Hnone. unfold segmentsToSrt. now rewrite H, Hnone.
Qed.

(** X20. Subtitles of a transcript given in two parts: the lines for
    [a ++ b] are the lines for [a] followed by the cues of [b], whose
    numbering goes on from the number of cues written for [a]. *)
Theorem srtLines_app :
  forall (a b : list Segment),
    srtLines trim (a ++ b)
    = (srtLines trim a
       ++ numbered trim (1 + Z.of_nat (length (filter (kept trim) a)))
                   (filter (kept trim) b))%list.
Proof.
  intros a b. unfold srtLines. rewrite !fold_pushSegment. simpl.
  now rewrite filter_app, numbered_app.
Qed.

End SrtProperties.

Lemma segmentsToSrt_numbers_kept_segments_witness :
  segmentsToSrt (fun s => s)
    [{| seg_start := None; seg_end := Some 1500; seg_text := Some "no start" |};
     {| seg_start := Some 0; seg_end := Some 900; seg_text := None |}] = "".
Proof.
  exact (proj2 (proj2 (proj2 (segmentsToSrt_numbers_kept_segments (fun s => s)
           [{| seg_start := None; seg_end := Some 1500; seg_text := Some "no start" |};
            {| seg_start := Some 0; seg_end := Some 900; seg_text := None |}])))
               eq_refl).
Defined.

(** ** Upload *)

(** X21. [uploadVideoWithCaptions] sends exactly one [videos.insert] and at
    most one [captions.insert].  When [videos.insert] rejects, that error is
    thrown and no captions are sent.  Captions are sent exactly when the
    video was created, a subtitle path was given and the file exists; they
    are sent for the id that [videos.insert] returned.  The function returns
    only that id. *)
Theorem uploadVideoWithCaptions_calls :
  forall (Y : YouTube) (req : UploadRequest),
    let o := fst (uploadVideoWithCaptionsImpl Y req) in
    let log := snd (uploadVideoWithCaptionsImpl Y req) in
    length (filter isVideosInsert log) = 1%nat
    /\ (length (filter isCaptionsInsert log) <= 1)%nat
    /\ (forall e, videos_insert Y req = Threw e ->
                  o = Threw e /\ filter isCaptionsInsert log = [])
    /\ (forall vid, o = Returned vid -> videos_insert Y req = Returned vid)
    /\ (forall vid f r, In (CaptionsInsert vid f r) log ->
                        videos_insert Y req = Returned vid
                        /\ f = srtPath req /\ f <> ""
                        /\ existsSync Y f = true
                        /\ r = captions_insert Y vid f)
    /\ (forall vid, videos_insert Y req = Returned vid ->
                    srtPath req <> "" -> existsSync Y (srtPath req) = true ->
                    exists r, In (CaptionsInsert vid (srtPath req) r) log).
Proof.
  intros Y req o log. subst o log. unfold uploadVideoWithCaptionsImpl.
  destruct (videos_insert Y req) as [vid | e]; simpl.
  - destruct (String.eqb_spec (srtPath req) "") as [Hs | Hs]; simpl.
    + split; [reflexivity|]. split; [lia|]. split; [discriminate|].
      split; [congruence|]. split.
      * intros v p r [Hin | []]. discriminate.
      * intros v _ Hne. contradiction.
    + destruct (existsSync Y (srtPath req)) eqn:Hex; simpl.
      * destruct (captions_insert Y vid (srtPath req)) as [u | e] eqn:Hc; simpl.
        -- split; [reflexivity|]. split; [lia|]. split; [discriminate|].
           split; [congruence|]. split.
           ++ intros v p r [Hin | [Hin | []]]; [discriminate|].
              injection Hin as <- <- <-. auto.
           ++ intros v Hv _ _. injection Hv as <-. eexists. right. left. reflexivity.
        -- split; [reflexivity|]. split; [lia|]. split; [discriminate|].
           split; [discriminate|]. split.
           ++ intros v p r [Hin | [Hin | []]]; [discriminate|].
              injection Hin as <- <- <-. auto.
           ++ intros v Hv _ _. injection Hv as <-. eexists. right. left. reflexivity.
      * split; [reflexivity|]. split; [lia|]. split; [discriminate|].
        split; [congruence|]. split.
        -- intros v p r [Hin | []]. discriminate.
        -- intros v _ _ Hex'. discriminate.
  - split; [reflexivity|]. split; [lia|]. split.
    + intros e' He. injection He as <-. auto.
    + split; [discriminate|]. split.
      * intros v p r [Hin | []]. discriminate.
      * discriminate.
Qed.

Lemma uploadVideoWithCaptions_calls_witness :
  exists r,
    In (CaptionsInsert "yt42" "/workspace/jobs/job-1/subtitles.srt" r)
       (snd (uploadVideoWithCaptionsImpl sampleYouTube sampleUpload)).
Proof.
  destruct (uploadVideoWithCaptions_calls sampleYouTube sampleUpload)
    as (_ & _ & _ & _ & _ & Hsent).
  apply (Hsent "yt42" eq_refl); [discriminate | reflexivity].
Defined.

(** X22. When the captions cannot be attached, [uploadVideoWithCaptions]
    throws the error of [captions.insert] although [videos.insert] has
    succeeded: the caller does not get the id of the video that now exists
    on the platform. *)
Theorem captions_failure_hides_the_created_video :
  forall (Y : YouTube) (req : UploadRequest) (vid : string) (e : Thrown),
    videos_insert Y req = Returned vid ->
    srtPath req <> "" ->
    existsSync Y (srtPath req) = true ->
    captions_insert Y vid (srtPath req) = Threw e ->
    uploadVideoWithCaptionsImpl Y req
    = (Threw e,
       [VideosInsert (videoPath req) (Returned vid);
        CaptionsInsert vid (srtPath req) (Threw e)]).
Proof.
  intros Y req vid e Hv Hs Hex Hc. unfold uploadVideoWithCaptionsImpl.
  rewrite Hv, Hex, Hc.
  destruct (String.eqb_spec (srtPath req) ""); [contradiction | reflexivity].
Qed.

Lemma captions_failure_hides_the_created_video_witness :
  fst (uploadVideoWithCaptionsImpl sampleYouTube sampleUpload)
  = Threw (ErrorObj "GaxiosError" "captions quota exceeded").
Proof.
  refine (f_equal fst
            (captions_failure_hides_the_created_video sampleYouTube sampleUpload
               "yt42" (ErrorObj "GaxiosError" "captions quota exceeded")
               eq_refl _ eq_refl eq_refl)).
  discriminate.
Defined.

(** ** More on the runner *)

Lemma bind_Threw {A B : Type} (m : M A) (k : A -> M B) w e w1 :
  m w = (Threw e, w1) -> bind m k w = (Threw e, w1).
Proof. intros H. unfold bind. now rewrite H. Qed.

Lemma bind_Returned {A B : Type} (m : M A) (k : A -> M B) w a w1 :
  m w = (Returned a, w1) -> bind m k w = k a w1.
Proof. intros H. unfold bind. now rewrite H. Qed.

(** X23. A run stops before it starts when its working directory cannot be
    made or when the drawn id is already in the ledger: [runCreateShorts]
    throws (the error of [mkdirSync], or the unique-constraint error), the
    database is left as it was, so that the job already stored under the id
    is not overwritten, and neither a collaborator nor the observer is
    called. *)
Theorem runCreateShorts_fails_before_creation :
  forall (E : Env) (u url base : string) (notify : option Observer) (d : Db),
    (forall e,
        mkdirSync E (pathJoin (JOBS_DIR E) (randomUUID E)) = Threw e ->
        runJob E u url base notify d = (Threw e, initWorld d))
    /\ (forall r,
           mkdirSync E (pathJoin (JOBS_DIR E) (randomUUID E)) = Returned tt ->
           getJob (randomUUID E) d = Some r ->
           runJob E u url base notify d
           = (Threw (uniqueViolation "jobs.id"),
              {| db := d; ticks := 1; trace := [] |})).
Proof.
  intros E u url base notify d. split.
  - intros e He. unfold runJob, runCreateShorts.
    apply bind_Threw. unfold mkdirSyncM. now rewrite He.
  - intros r Hmk Hr. unfold runJob, runCreateShorts.
    rewrite (bind_Returned _ _ _ tt (initWorld d))
      by (unfold mkdirSyncM; now rewrite Hmk).
    apply bind_Threw. unfold createJobM, bind, Date_now. simpl.
    now rewrite (createJob_existing
                   {| nj_id := randomUUID E; nj_telegram_user_id := u;
                      nj_source_url := url; nj_status := "queued" |} _ d r Hr).
Qed.

Lemma runCreateShorts_fails_before_creation_witness :
  runJob sampleEnv "u2" "https://video/z" "http://localhost:8080" (Some noop)
         (db (snd (runJob sampleEnv "u1" "https://video/x" "http://localhost:8080"
                          None emptyDb)))
  = (Threw (ErrorObj "SqliteError" "UNIQUE constraint failed: jobs.id"),
     {| db := db (snd (runJob sampleEnv "u1" "https://video/x" "http://localhost:8080"
                              None emptyDb));
        ticks := 1; trace := [] |}).
Proof.
  refine (proj2 (runCreateShorts_fails_before_creation sampleEnv "u2" "https://video/z"
                   "http://localhost:8080" (Some noop) _) _ eq_refl _).
  vm_compute. reflexivity.
Defined.

(** *** The run and the rest of the database *)

Section KeepsDb.

Variable R : Db -> Prop.

Lemma keepsDb_bind {A B : Type} (m : M A) (k : A -> M B) :
  keepsDb R m -> (forall a, keepsDb R (k a)) -> keepsDb R (bind m k).
Proof.
  intros Hm Hk w Hw. unfold bind. specialize (Hm w Hw).
  destruct (m w) as [[a | e] w1]; simpl in *; [now apply Hk | exact Hm].
Qed.

Lemma keepsDb_tryCatch {A : Type} (body : M A) (h : Thrown -> M A) :
  keepsDb R body -> (forall e, keepsDb R (h e)) -> keepsDb R (tryCatch body h).
Proof.
  intros Hb Hh w Hw. unfold tryCatch. specialize (Hb w Hw).
  destruct (body w) as [[a | e] w1]; simpl in *; [exact Hb | now apply Hh].
Qed.

Lemma keepsDb_unchanged {A : Type} (m : M A) :
  (forall w, db (snd (m w)) = db w) -> keepsDb R m.
Proof. intros H w Hw. now rewrite H. Qed.

Variable E : Env.
Variable i : string.
Hypothesis R_createJob :
  forall job now d, nj_id job = i -> R d -> R (snd (createJob job now d)).
Hypothesis R_updateJobStatus :
  forall st extra now d, R d -> R (updateJobStatus i st extra now d).

Lemma keepsDb_createJobM job : nj_id job = i -> keepsDb R (createJobM E job).
Proof.
  intros Hi w Hw. unfold createJobM, bind, Date_now. simpl.
  pose proof (R_createJob job (dateNow E (ticks w)) (db w) Hi Hw) as H.
  now destruct (createJob job (dateNow E (ticks w)) (db w)) as [[[] | e] d1].
Qed.

Lemma keepsDb_updateJobStatusM st extra : keepsDb R (updateJobStatusM E i st extra).
Proof.
  intros w Hw. unfold updateJobStatusM, bind, Date_now. simpl.
  now apply R_updateJobStatus.
Qed.

Lemma keepsDb_step notify st (fn : M string) :
  keepsDb R fn -> keepsDb R (step E i notify st fn).
Proof.
  intros Hfn. unfold step.
  apply keepsDb_bind; [apply keepsDb_updateJobStatusM | intros _].
  apply keepsDb_bind; [|intros _; exact Hfn].
  apply keepsDb_unchanged. intros w. now destruct notify.
Qed.

(** Whatever the writes to the row of the job keep, the whole run keeps. *)
Lemma keepsDb_runCreateShorts u url base notify :
  i = randomUUID E -> keepsDb R (runCreateShorts E u url base notify).
Proof.
  intros Hi. unfold runCreateShorts. rewrite <- Hi.
  apply keepsDb_bind; [now apply keepsDb_unchanged | intros _].
  apply keepsDb_bind; [now apply keepsDb_createJobM | intros _].
  apply keepsDb_bind; [|intros _; now apply keepsDb_unchanged].
  apply keepsDb_tryCatch.
  - repeat (apply keepsDb_bind;
            [apply keepsDb_step; now apply keepsDb_unchanged | intros ?]).
    apply keepsDb_bind; [now apply keepsDb_unchanged | intros [c|]].
    + apply keepsDb_bind;
        [apply keepsDb_step; now apply keepsDb_unchanged | intros ?].
      apply keepsDb_bind; [apply keepsDb_updateJobStatusM | intros _].
      apply keepsDb_unchanged. intros w. now destruct notify.
    + now apply keepsDb_unchanged.
  - intros e.
    apply keepsDb_bind; [apply keepsDb_updateJobStatusM | intros _].
    apply keepsDb_unchanged. intros w. now destruct notify.
Qed.

End KeepsDb.

(** X24. A run touches nothing but the row of its own job: whatever the
    collaborators and the observer do, and however the run ends, the
    credentials and the pending states are as before, every job with another
    id is read back as before, and no id occurs twice in the ledger if none
    did before. *)
Theorem run_leaves_the_rest_of_the_database :
  forall (E : Env) (u url base : string) (notify : option Observer) (d : Db),
    sameElsewhere (randomUUID E) d (db (snd (runJob E u url base notify d)))
    /\ (uniqueJobIds d -> uniqueJobIds (db (snd (runJob E u url base notify d)))).
Proof.
  intros E u url base notify d. split.
  - apply (keepsDb_runCreateShorts (sameElsewhere (randomUUID E) d) E (randomUUID E));
      [ | |reflexivity|].
    + intros job now d0 Hi (Ht & Hs & Hj).
      destruct (createJob job now d0) as [o d1] eqn:Hc. simpl.
      unfold createJob in Hc.
      destruct (existsb (hasJob (nj_id job)) (jobs d0)) eqn:Hex;
        injection Hc as <- <-; [now repeat split|].
      repeat split; try assumption.
      intros j Hne. rewrite <- Hj by assumption.
      unfold getJob. simpl. apply find_app_miss.
      unfold hasJob. simpl. apply String.eqb_neq. congruence.
    + intros st extra now d0 (Ht & Hs & Hj).
      repeat split; try assumption.
      intros j Hne. rewrite <- Hj by assumption.
      now apply getJob_updateJobStatus_other.
    + simpl. now repeat split.
  - intros Hd.
    apply (keepsDb_runCreateShorts uniqueJobIds E (randomUUID E));
      [ | |reflexivity|exact Hd].
    + intros job now d0 _ Hd0. now apply uniqueJobIds_createJob.
    + intros st extra now d0 Hd0. now apply uniqueJobIds_updateJobStatus.
Qed.

Lemma run_leaves_the_rest_of_the_database_witness :
  uniqueJobIds (db (snd (runJob sampleEnv "u1" "https://video/x" "http://localhost:8080"
                                (Some noop) linkedDb)))
  /\ getToken "u1" (db (snd (runJob sampleEnv "u1" "https://video/x"
                                    "http://localhost:8080" (Some noop) linkedDb)))
     = getToken "u1" linkedDb.
Proof.
  destruct (run_leaves_the_rest_of_the_database sampleEnv "u1" "https://video/x"
              "http://localhost:8080" (Some noop) linkedDb)
    as ((Htok & _ & _) & Huniq).
  split.
  - apply Huniq. intros i. simpl. lia.
  - unfold getToken. now rewrite Htok.
Defined.

(** *** Ends of a run, for every observer *)

Lemma botNotify_resolves sendMessage u sent msg :
  botNotify sendMessage u sent msg = Returned tt.
Proof. unfold botNotify. now destruct (sendMessage sent u _). Qed.

Opaque getJob updateJobStatus createJob getAuthorizedClient String.append pathJoin.

(** X25. Whenever [runCreateShorts] returns, what it returns is the id of a
    job that [GET /jobs/:id] finds in the database the run leaves: the route
    answers 200 with a row that has this id, the owner and the url given to
    the run, and a status that is [completed] or [failed], whatever the
    collaborators and the observer did. *)
Theorem returned_job_can_be_polled E u url base notify d i :
  fst (runJob E u url base notify d) = Returned i ->
  exists r,
    jobsRoute i (db (snd (runJob E u url base notify d)))
    = {| statusCode := 200; body := SendJob r |}
    /\ job_id r = i
    /\ job_telegram_user_id r = u
    /\ source_url r = url
    /\ terminal (status r).
Proof.
  destruct notify as [f|].
  all: run_cases.
  all: intros Hret; try discriminate Hret; injection Hret as <-.
  all: unfold jobsRoute; read_final.
  all: eexists; split; [reflexivity|]; cbn.
  all: repeat (split; [reflexivity|]).
  all: first [left; reflexivity | right; reflexivity].
Qed.

Lemma returned_job_can_be_polled_witness :
  exists r,
    jobsRoute "job-1"
      (db (snd (runJob failingTranscriber "u1" "https://video/x" "http://localhost:8080"
                       (Some noop) linkedDb)))
    = {| statusCode := 200; body := SendJob r |}
    /\ job_id r = "job-1"
    /\ job_telegram_user_id r = "u1"
    /\ source_url r = "https://video/x"
    /\ terminal (status r).
Proof.
  apply (returned_job_can_be_polled failingTranscriber "u1" "https://video/x"
           "http://localhost:8080" (Some noop) linkedDb "job-1").
  vm_compute. reflexivity.
Defined.

(** X26. A run never stores a video id of its own making: in every version
    of the row that the run writes, a video id that is set is the value the
    upload collaborator returned in this run, whatever the observer does. *)
Theorem stored_video_id_comes_from_the_upload E u url base notify d :
  forall r v,
    In r (ledgerRows (randomUUID E) (events E u url base notify d)) ->
    video_id r = Some v ->
    In (EvCall Upload (Returned v)) (events E u url base notify d).
Proof.
  destruct notify as [f|].
  all: run_cases.
  all: intros r v Hin Hv.
  all: cbn [ledgerRows flat_map app] in Hin; rewrite ?String.eqb_refl in Hin;
       cbn [ledgerRows flat_map app] in Hin.
  all: repeat (destruct Hin as [<- | Hin];
               [cbn in Hv; try discriminate Hv; injection Hv as <-; prove_In|]).
  all: try contradiction.
Qed.

Lemma stored_video_id_comes_from_the_upload_witness :
  In (EvCall Upload (Returned "yt42"))
     (events sampleEnv "u1" "https://video/x" "http://localhost:8080"
             (Some (throwsOn "completed")) linkedDb).
Proof.
  refine (stored_video_id_comes_from_the_upload sampleEnv "u1" "https://video/x"
            "http://localhost:8080" (Some (throwsOn "completed")) linkedDb
            {| job_id := "job-1"; job_telegram_user_id := "u1";
               source_url := "https://video/x"; status := "failed";
               created_at := 1000; updated_at := 1007;
               video_id := Some "yt42"; error := Some "chat unreachable" |}
            "yt42" _ eq_refl).
  vm_compute. prove_In.
Defined.

(** X27. With the wiring of [server.js], where the observer is the notifier
    adapter, the handler resolves with the job id exactly when the job could
    be created (the working directory was made and the drawn id was free):
    no failure of a collaborator or of the delivery of a message makes the
    handler reject. *)
Theorem handler_resolves_iff_job_created E sendMessage u url d :
  fst (onCreateShorts E sendMessage u url (initWorld d)) = Returned (randomUUID E)
  <-> jobCreated E d.
Proof.
  pose proof (botNotify_resolves sendMessage u) as Hn.
  unfold onCreateShorts.
  change (runCreateShorts E u url ?b ?n (initWorld d)) with (runJob E u url b n d).
  unfold jobCreated.
  run_cases; try reliable Hn.
  all: split; [intros Hret; try discriminate Hret | intros [Hmk Hfree]];
       try (split; assumption); try reflexivity; try impossible.
Qed.

Lemma handler_resolves_iff_job_created_witness :
  fst (onCreateShorts sampleEnv delivered "u1" "https://video/x" (initWorld linkedDb))
  = Returned "job-1".
Proof.
  apply (proj2 (handler_resolves_iff_job_created sampleEnv delivered "u1"
                  "https://video/x" linkedDb)).
  split; vm_compute; reflexivity.
Defined.

Transparent getJob updateJobStatus createJob getAuthorizedClient String.append pathJoin.
